(** * The to-do API: the four route handlers of [app/api/todos/route.ts]

    The handlers [GET], [POST], [PATCH] and [DELETE] are embedded as
    computations in a small monad that reads the environment of a
    request, carries the persistence store and lets a computation throw;
    [try ... catch] is the handlers' catch-all.  JavaScript values are an
    inductive type, so that the presence checks ([!title],
    [completed !== undefined]) and the calls that throw on the wrong type
    ([title.trim()]) are evaluated as the source evaluates them.

    The file has two parts: the program, then its properties. *)

From Stdlib Require Import ZArith NArith List String Ascii Bool.
From Stdlib Require Import Sorted Permutation Lia.
From Stdlib Require Import DecimalString DecimalN.
Import ListNotations.

Local Open Scope Z_scope.

(** * Part 1: the program *)

(** ** Strings

    A JavaScript string is a sequence of UTF-16 code units.  The string
    literals of the source are ASCII and are written [lit "..."]. *)

Definition jsstring := list N.

Definition lit (s : string) : jsstring :=
  map N_of_ascii (list_ascii_of_string s).

Fixpoint str_eqb (a b : jsstring) : bool :=
  match a, b with
  | [], [] => true
  | x :: a', y :: b' => N.eqb x y && str_eqb a' b'
  | _, _ => false
  end.

(** [String.prototype.trim] removes ECMAScript WhiteSpace and
    LineTerminator code points from both ends; all of them are single
    code units. *)
Definition is_white_space (c : N) : bool :=
  ((9 <=? c) && (c <=? 13)            (* TAB, LF, VT, FF, CR *)
   || (c =? 32)                       (* SPACE *)
   || (c =? 160)                      (* NO-BREAK SPACE *)
   || (c =? 5760)                     (* U+1680 *)
   || ((8192 <=? c) && (c <=? 8202))  (* U+2000 .. U+200A *)
   || (c =? 8232) || (c =? 8233)      (* U+2028, U+2029 *)
   || (c =? 8239)                     (* U+202F *)
   || (c =? 8287)                     (* U+205F *)
   || (c =? 12288)                    (* U+3000 *)
   || (c =? 65279))%N.                (* U+FEFF *)

Fixpoint trim_start (s : jsstring) : jsstring :=
  match s with
  | [] => []
  | c :: s' => if is_white_space c then trim_start s' else s
  end.

Definition trim_end (s : jsstring) : jsstring := rev (trim_start (rev s)).

Definition trim (s : jsstring) : jsstring := trim_end (trim_start s).

Arguments trim : simpl never.

(** A string is blank when it is empty or holds white space only. *)
Definition blank (s : jsstring) : bool := forallb is_white_space s.

(** ** Values

    What [request.json()] resolves to, and [undefined] for a property
    that is not there.  The handlers never do arithmetic: a number is
    only tested for truthiness, so integers stand for numbers. *)

#[local] Unset Elimination Schemes.
Inductive value : Type :=
| VUndefined
| VNull
| VBool (b : bool)
| VNum (n : Z)
| VStr (s : jsstring)
| VArr (items : list value)
| VObj (props : list (jsstring * value)).
#[local] Set Elimination Schemes.

(** [!v] is [negb (truthy v)]. *)
Definition truthy (v : value) : bool :=
  match v with
  | VUndefined | VNull => false
  | VBool b => b
  | VNum n => negb (n =? 0)
  | VStr s => match s with [] => false | _ => true end
  | VArr _ | VObj _ => true
  end.

Definition nullish (v : value) : bool :=
  match v with
  | VUndefined | VNull => true
  | _ => false
  end.

(** [v !== undefined] *)
Definition is_defined (v : value) : bool :=
  match v with VUndefined => false | _ => true end.

(** Own property of a parsed object; [JSON.parse] keeps the last of
    duplicate keys. *)
Fixpoint own_property (k : jsstring) (props : list (jsstring * value))
  : option value :=
  match props with
  | [] => None
  | (k', v) :: rest =>
      match own_property k rest with
      | Some w => Some w
      | None => if str_eqb k k' then Some v else None
      end
  end.

(** Reading one of the names the handlers destructure ([id],
    [completed], [title], [description]) from a non-null value: an object
    gives its own property, and neither [Object.prototype] nor the
    prototypes of booleans, numbers, strings and arrays define any of
    these names. *)
Definition prop (v : value) (k : jsstring) : value :=
  match v with
  | VObj props =>
      match own_property k props with Some w => w | None => VUndefined end
  | _ => VUndefined
  end.

(** [updateData.k = v] on the patch object under construction. *)
Definition set_prop (k : jsstring) (v : value)
  (props : list (jsstring * value)) : list (jsstring * value) :=
  props ++ [(k, v)].

(** [a || b] *)
Definition or_else (a b : value) : value := if truthy a then a else b.

(** [v === ''] *)
Definition is_empty_string (v : value) : bool :=
  match v with
  | VStr [] => true
  | _ => false
  end.

(** A [string | null] result as a value. *)
Definition nullable (o : option jsstring) : value :=
  match o with
  | Some s => VStr s
  | None => VNull
  end.

(** ** The Task record, the store and the environment of a request *)

(** The fields of [interface Todo]; the two timestamps are instants, in
    milliseconds. *)
Record Todo : Type := mkTodo {
  id : jsstring;
  title : jsstring;
  description : option jsstring;
  completed : bool;
  createdAt : Z;
  updatedAt : Z
}.

(** The table, in insertion order, and the sequence number of the next
    identifier to hand out. *)
Record store : Type := mkStore {
  rows : list Todo;
  next_seq : N
}.

(** What a request finds around it: the clock reading, and whether the
    store can be reached. *)
Record env : Type := mkEnv {
  clock : Z;
  db_up : bool
}.

(** ** Computations that read the environment, use the store and may throw *)

(** Modelled from the spec: the store-layer failures of section 7 (a
    target that is not found, data that the schema refuses, a store that
    cannot be reached), missing with the Prisma client. *)
Inductive store_fault : Type := NotFound | Validation | Unreachable.

(** What a computation can throw: the [SyntaxError] of a body that does
    not parse, the [TypeError] of a call on the wrong kind of value, and
    the failures of the store. *)
Inductive error : Type :=
| SyntaxError
| TypeError
| StoreError (f : store_fault).

Inductive outcome (A : Type) : Type :=
| Return (a : A)
| Throw (e : error).
Arguments Return {A} a.
Arguments Throw {A} e.

Definition M (A : Type) : Type := env -> store -> outcome A * store.

Definition ret {A} (a : A) : M A := fun _ s => (Return a, s).

Definition throw {A} (e : error) : M A := fun _ s => (Throw e, s).

Definition bind {A B} (m : M A) (k : A -> M B) : M B :=
  fun e s =>
    match m e s with
    | (Return a, s') => k a e s'
    | (Throw err, s') => (Throw err, s')
    end.

Definition ask : M env := fun e s => (Return e, s).

Definition get : M store := fun _ s => (Return s, s).

Definition put (s' : store) : M unit := fun _ _ => (Return tt, s').

(** [try { body } catch { handler }] *)
Definition try_catch {A} (body : M A) (handler : M A) : M A :=
  fun e s =>
    match body e s with
    | (Return a, s') => (Return a, s')
    | (Throw _, s') => handler e s'
    end.

(** Running a computation: its outcome and the store it leaves. *)
Definition run {A} (m : M A) (e : env) (s : store) : outcome A * store :=
  m e s.

Declare Scope js_scope.
Delimit Scope js_scope with js.
Notation "x <- m ;; k" := (bind m (fun x => k))
  (at level 61, m at next level, right associativity) : js_scope.
Notation "'try' b 'catch' h" := (try_catch b h)
  (at level 62, b at level 61, h at level 61) : js_scope.
Local Open Scope js_scope.

(** ** The persistence store

    The Prisma client and the schema of the table are not part of the
    handlers' file.  The record type above and the four operations that
    the handlers call are modelled here. *)

(** Modelled from the spec: a store operation that fails rejects its
    promise (section 7), missing with the Prisma client. *)
Definition store_throw {A} (f : store_fault) : M A := throw (StoreError f).

(** Modelled from the spec: the identifier the store assigns at creation
    (section 3: opaque, unique, never reused), missing with the schema.
    It is the letter c followed by the decimal sequence number. *)
Definition fresh_id (n : N) : jsstring :=
  lit (String "c" (NilEmpty.string_of_uint (N.to_uint n))).

Arguments fresh_id : simpl never.

(** Modelled from the spec: looking a record up by its primary key
    (section 6: primary key [id]), missing with the Prisma client. *)
Definition find_by_id (i : jsstring) (l : list Todo) : option Todo :=
  find (fun t => str_eqb (id t) i) l.

(** Modelled from the spec: the typed content of a [data] object, after
    the store has checked it against the field types of section 3
    (title: text; description: text or absent; completed: boolean),
    missing with the schema.  A property that is not there, or is
    [undefined], is not part of the write. *)
Record patch : Type := mkPatch {
  p_completed : option bool;
  p_title : option jsstring;
  p_description : option (option jsstring)
}.

(** Modelled from the spec: the type check of [completed] (section 3:
    boolean), missing with the schema. *)
Definition check_completed (v : value) : option (option bool) :=
  match v with
  | VUndefined => Some None
  | VBool b => Some (Some b)
  | _ => None
  end.

(** Modelled from the spec: the type check of [title] (section 3: text,
    required), missing with the schema. *)
Definition check_title (v : value) : option (option jsstring) :=
  match v with
  | VUndefined => Some None
  | VStr s => Some (Some s)
  | _ => None
  end.

(** Modelled from the spec: the type check of [description] (section 3:
    text or absent), missing with the schema. *)
Definition check_description (v : value)
  : option (option (option jsstring)) :=
  match v with
  | VUndefined => Some None
  | VNull => Some (Some None)
  | VStr s => Some (Some (Some s))
  | _ => None
  end.

(** Modelled from the spec: the type check of a whole [data] object,
    missing with the schema. *)
Definition check_data (data : list (jsstring * value)) : option patch :=
  match check_completed (prop (VObj data) (lit "completed")),
        check_title (prop (VObj data) (lit "title")),
        check_description (prop (VObj data) (lit "description")) with
  | Some c, Some t, Some d => Some (mkPatch c t d)
  | _, _, _ => None
  end.

(** Modelled from the spec: the write of an update (section 4.1, Update:
    only the fields present are changed, [updatedAt] is refreshed, [id]
    and [createdAt] are immutable), missing with the Prisma client. *)
Definition apply_patch (p : patch) (now : Z) (t : Todo) : Todo :=
  {| id := id t;
     title := match p_title p with Some s => s | None => title t end;
     description :=
       match p_description p with Some d => d | None => description t end;
     completed :=
       match p_completed p with Some b => b | None => completed t end;
     createdAt := createdAt t;
     updatedAt := now |}.

(** Modelled from the spec: [ORDER BY createdAt DESC], ties in insertion
    order (section 4.1, List), missing with the Prisma client. *)
Fixpoint insert_desc (t : Todo) (l : list Todo) : list Todo :=
  match l with
  | [] => [t]
  | u :: l' =>
      if createdAt u <=? createdAt t then t :: u :: l'
      else u :: insert_desc t l'
  end.

(** Modelled from the spec: the whole table in the order of
    [insert_desc], missing with the Prisma client. *)
Definition order_by_createdAt_desc (l : list Todo) : list Todo :=
  fold_right insert_desc [] l.

(** Modelled from the spec: [UPDATE ... WHERE id = i], missing with the
    Prisma client. *)
Definition update_rows (i : jsstring) (p : patch) (now : Z)
  (l : list Todo) : list Todo :=
  map (fun r => if str_eqb (id r) i then apply_patch p now r else r) l.

(** Modelled from the spec: [DELETE ... WHERE id = i], missing with the
    Prisma client. *)
Definition delete_rows (i : jsstring) (l : list Todo) : list Todo :=
  filter (fun r => negb (str_eqb (id r) i)) l.

Module prisma.
Module todo.

(** Modelled from the spec: [prisma.todo.findMany({ orderBy: { createdAt:
    'desc' } })], missing with the Prisma client; it fails only when the
    store cannot be reached. *)
Definition findMany_orderBy_createdAt_desc : M (list Todo) :=
  e <- ask ;;
  if db_up e then
    (s <- get ;;
     ret (order_by_createdAt_desc (rows s)))
  else store_throw Unreachable.

(** Modelled from the spec: [prisma.todo.create({ data })], missing with
    the Prisma client.  The new record gets a fresh [id],
    [completed = false] and both timestamps set to now (section 4.1,
    Create). *)
Definition create (data : list (jsstring * value)) : M Todo :=
  match check_data data with
  | Some {| p_completed := c; p_title := Some t; p_description := d |} =>
      e <- ask ;;
      if db_up e then
        (s <- get ;;
         let r := {| id := fresh_id (next_seq s);
                     title := t;
                     description :=
                       match d with Some x => x | None => None end;
                     completed :=
                       match c with Some b => b | None => false end;
                     createdAt := clock e;
                     updatedAt := clock e |} in
         _ <- put {| rows := rows s ++ [r];
                     next_seq := N.succ (next_seq s) |} ;;
         ret r)
      else store_throw Unreachable
  | _ => store_throw Validation
  end.

(** Modelled from the spec: [prisma.todo.update({ where: { id }, data })],
    missing with the Prisma client.  Only the fields of [data] are
    written and [updatedAt] is refreshed; a target that does not exist is
    a failure (sections 3 and 4.1, Update). *)
Definition update (where_id : value) (data : list (jsstring * value))
  : M Todo :=
  match where_id with
  | VStr i =>
      match check_data data with
      | Some p =>
          e <- ask ;;
          if db_up e then
            (s <- get ;;
             match find_by_id i (rows s) with
             | Some t =>
                 _ <- put {| rows := update_rows i p (clock e) (rows s);
                             next_seq := next_seq s |} ;;
                 ret (apply_patch p (clock e) t)
             | None => store_throw NotFound
             end)
          else store_throw Unreachable
      | None => store_throw Validation
      end
  | _ => store_throw Validation
  end.

(** Modelled from the spec: [prisma.todo.delete({ where: { id } })],
    missing with the Prisma client; the record is removed, and a target
    that does not exist is a failure (section 4.1, Delete). *)
Definition delete (where_id : value) : M Todo :=
  match where_id with
  | VStr i =>
      e <- ask ;;
      if db_up e then
        (s <- get ;;
         match find_by_id i (rows s) with
         | Some t =>
             _ <- put {| rows := delete_rows i (rows s);
                         next_seq := next_seq s |} ;;
             ret t
         | None => store_throw NotFound
         end)
      else store_throw Unreachable
  | _ => store_throw Validation
  end.

End todo.
End prisma.

(** ** Requests and responses *)

(** [json_body] is what [request.json()] resolves to, [None] when the body
    does not parse; [searchParams] are the entries of the query string of
    [request.url]. *)
Record request : Type := mkRequest {
  json_body : option value;
  searchParams : list (jsstring * jsstring)
}.

Inductive content : Type :=
| Todos (l : list Todo)
| Item (t : Todo)
| ErrorBody (error : string)
| MessageBody (message : string).

Record response : Type := mkResponse {
  status : Z;
  body : content
}.

(** [NextResponse.json(body)] and [NextResponse.json(body, { status })] *)
Definition NextResponse_json (c : content) (st : option Z) : response :=
  {| status := match st with Some n => n | None => 200 end; body := c |}.

(** [await request.json()] *)
Definition request_json (req : request) : M value :=
  match json_body req with
  | Some v => ret v
  | None => throw SyntaxError
  end.

(** [const { ... } = body]: destructuring [null] or [undefined] throws. *)
Definition destructure (v : value) : M value :=
  if nullish v then throw TypeError else ret v.

(** [v.trim()]: only a string has a callable [trim]. *)
Definition call_trim (v : value) : M value :=
  match v with
  | VStr s => ret (VStr (trim s))
  | _ => throw TypeError
  end.

(** [v?.trim()] *)
Definition optional_call_trim (v : value) : M value :=
  if nullish v then ret VUndefined else call_trim v.

(** [searchParams.get(name)]: the first value of that name, or [null]. *)
Fixpoint searchParams_get (name : jsstring)
  (entries : list (jsstring * jsstring)) : option jsstring :=
  match entries with
  | [] => None
  | (k, v) :: rest =>
      if str_eqb k name then Some v else searchParams_get name rest
  end.

(** ** The handlers *)

Definition GET : M response :=
  try
    (todos <- prisma.todo.findMany_orderBy_createdAt_desc ;;
     ret (NextResponse_json (Todos todos) None))
  catch
    ret (NextResponse_json (ErrorBody "Failed to fetch todos") (Some 500)).

Definition POST (req : request) : M response :=
  try
    (body <- request_json req ;;
     body <- destructure body ;;
     let title := prop body (lit "title") in
     let description := prop body (lit "description") in
     rejected <-
       (if negb (truthy title) then ret true
        else (t <- call_trim title ;; ret (is_empty_string t))) ;;
     if rejected : bool then
       ret (NextResponse_json (ErrorBody "Title is required") (Some 400))
     else
       (t <- call_trim title ;;
        d <- optional_call_trim description ;;
        todo <- prisma.todo.create [(lit "title", t);
                                    (lit "description", or_else d VNull)] ;;
        ret (NextResponse_json (Item todo) (Some 201))))
  catch
    ret (NextResponse_json (ErrorBody "Failed to create todo") (Some 500)).

Definition PATCH (req : request) : M response :=
  try
    (body <- request_json req ;;
     body <- destructure body ;;
     let id := prop body (lit "id") in
     let completed := prop body (lit "completed") in
     let title := prop body (lit "title") in
     let description := prop body (lit "description") in
     if negb (truthy id) then
       ret (NextResponse_json (ErrorBody "Todo ID is required") (Some 400))
     else
       (let updateData := [] in
        let updateData :=
          if is_defined completed
          then set_prop (lit "completed") completed updateData
          else updateData in
        updateData <-
          (if is_defined title
           then (t <- call_trim title ;;
                 ret (set_prop (lit "title") t updateData))
           else ret updateData) ;;
        updateData <-
          (if is_defined description
           then (d <- optional_call_trim description ;;
                 ret (set_prop (lit "description") (or_else d VNull)
                        updateData))
           else ret updateData) ;;
        todo <- prisma.todo.update id updateData ;;
        ret (NextResponse_json (Item todo) None)))
  catch
    ret (NextResponse_json (ErrorBody "Failed to update todo") (Some 500)).

Definition DELETE (req : request) : M response :=
  try
    (let id := nullable (searchParams_get (lit "id") (searchParams req)) in
     if negb (truthy id) then
       ret (NextResponse_json (ErrorBody "Todo ID is required") (Some 400))
     else
       (_ <- prisma.todo.delete id ;;
        ret (NextResponse_json (MessageBody "Todo deleted successfully")
               None)))
  catch
    ret (NextResponse_json (ErrorBody "Failed to delete todo") (Some 500)).

(** ** Sequences of requests *)

(** A request to one of the four handlers. *)
Inductive call : Type :=
| CallGET
| CallPOST (req : request)
| CallPATCH (req : request)
| CallDELETE (req : request).

Definition handle (c : call) : M response :=
  match c with
  | CallGET => GET
  | CallPOST req => POST req
  | CallPATCH req => PATCH req
  | CallDELETE req => DELETE req
  end.

(** The store after a sequence of requests, each handled in its own
    environment. *)
Fixpoint store_after (cs : list (call * env)) (s : store) : store :=
  match cs with
  | [] => s
  | (c, e) :: rest => store_after rest (snd (run (handle c) e s))
  end.

(** The stores that some sequence of requests leads to from [s0], and
    from the empty store. *)
Definition reachable_from (s0 s : store) : Prop :=
  exists cs, store_after cs s0 = s.

Definition reachable : store -> Prop :=
  reachable_from {| rows := []; next_seq := 0 |}.

(** ** The client component [TodoList]

    The component keeps seven pieces of state and talks to the handlers
    through [fetch].  Each of its functions is embedded as a computation
    that takes the state the function was rendered with and returns the
    state after the updates it has queued; the store is the server's.
    One function runs at a time, to its end.  A Task in the list has the
    fields of the stored record, its timestamps as instants. *)

Module TodoList.

Record state : Type := mkState {
  todos : content;
  title : jsstring;
  description : jsstring;
  loading : bool;
  editingId : option jsstring;
  editTitle : jsstring;
  editDescription : jsstring
}.

End TodoList.

(** The [useState] initial values. *)
Definition initial_state : TodoList.state :=
  {| TodoList.todos := Todos [];
     TodoList.title := [];
     TodoList.description := [];
     TodoList.loading := false;
     TodoList.editingId := None;
     TodoList.editTitle := [];
     TodoList.editDescription := [] |}.

Definition setTodos (v : content) (st : TodoList.state) : TodoList.state :=
  {| TodoList.todos := v;
     TodoList.title := TodoList.title st;
     TodoList.description := TodoList.description st;
     TodoList.loading := TodoList.loading st;
     TodoList.editingId := TodoList.editingId st;
     TodoList.editTitle := TodoList.editTitle st;
     TodoList.editDescription := TodoList.editDescription st |}.

Definition setTitle (v : jsstring) (st : TodoList.state) : TodoList.state :=
  {| TodoList.todos := TodoList.todos st;
     TodoList.title := v;
     TodoList.description := TodoList.description st;
     TodoList.loading := TodoList.loading st;
     TodoList.editingId := TodoList.editingId st;
     TodoList.editTitle := TodoList.editTitle st;
     TodoList.editDescription := TodoList.editDescription st |}.

Definition setDescription (v : jsstring) (st : TodoList.state)
  : TodoList.state :=
  {| TodoList.todos := TodoList.todos st;
     TodoList.title := TodoList.title st;
     TodoList.description := v;
     TodoList.loading := TodoList.loading st;
     TodoList.editingId := TodoList.editingId st;
     TodoList.editTitle := TodoList.editTitle st;
     TodoList.editDescription := TodoList.editDescription st |}.

Definition setLoading (v : bool) (st : TodoList.state) : TodoList.state :=
  {| TodoList.todos := TodoList.todos st;
     TodoList.title := TodoList.title st;
     TodoList.description := TodoList.description st;
     TodoList.loading := v;
     TodoList.editingId := TodoList.editingId st;
     TodoList.editTitle := TodoList.editTitle st;
     TodoList.editDescription := TodoList.editDescription st |}.

Definition setEditingId (v : option jsstring) (st : TodoList.state)
  : TodoList.state :=
  {| TodoList.todos := TodoList.todos st;
     TodoList.title := TodoList.title st;
     TodoList.description := TodoList.description st;
     TodoList.loading := TodoList.loading st;
     TodoList.editingId := v;
     TodoList.editTitle := TodoList.editTitle st;
     TodoList.editDescription := TodoList.editDescription st |}.

Definition setEditTitle (v : jsstring) (st : TodoList.state)
  : TodoList.state :=
  {| TodoList.todos := TodoList.todos st;
     TodoList.title := TodoList.title st;
     TodoList.description := TodoList.description st;
     TodoList.loading := TodoList.loading st;
     TodoList.editingId := TodoList.editingId st;
     TodoList.editTitle := v;
     TodoList.editDescription := TodoList.editDescription st |}.

Definition setEditDescription (v : jsstring) (st : TodoList.state)
  : TodoList.state :=
  {| TodoList.todos := TodoList.todos st;
     TodoList.title := TodoList.title st;
     TodoList.description := TodoList.description st;
     TodoList.loading := TodoList.loading st;
     TodoList.editingId := TodoList.editingId st;
     TodoList.editTitle := TodoList.editTitle st;
     TodoList.editDescription := v |}.

(** [await fetch('/api/todos', ...)]: the request reaches its handler
    when the network is there, and the promise rejects when it is not. *)
Definition fetch (online : bool) (c : call) : M response :=
  if online then handle c else throw TypeError.

(** [response.ok] *)
Definition response_ok (r : response) : bool :=
  (200 <=? status r) && (status r <=? 299).

(** A request whose body is [JSON.stringify(v)]: the handler's
    [request.json()] gives [v] back. *)
Definition JSON_request (v : value) : request :=
  {| json_body := Some v; searchParams := [] |}.

(** The request [DELETE /api/todos?id=${id}].  The identifier is put in
    the address as it is; for one made of ASCII letters and digits (see
    [url_plain] below), as the store's are, the query string has the one
    entry written here. *)
Definition DELETE_request (id : jsstring) : request :=
  {| json_body := None; searchParams := [(lit "id", id)] |}.

(** [await response.json()] where the component expects a Task: the
    answers it reads this from are the 2xx answers to a create or an
    update, which carry one; on any other body the read is modelled as
    a throw. *)
Definition response_todo (r : response) : M Todo :=
  match body r with
  | Item t => ret t
  | _ => throw TypeError
  end.

(** [todos] used as an array ([...todos], [todos.map], [todos.filter]):
    a value that is not an array has none of these and the use throws. *)
Definition as_array (c : content) : M (list Todo) :=
  match c with
  | Todos l => ret l
  | _ => throw TypeError
  end.

(** [todos.map(todo => todo.id === id ? updatedTodo : todo)] *)
Definition replace_todo (i : jsstring) (updatedTodo : Todo)
  (l : list Todo) : list Todo :=
  map (fun todo => if str_eqb (id todo) i then updatedTodo else todo) l.

(** [todos.filter(todo => todo.id !== id)] *)
Definition remove_todo (i : jsstring) (l : list Todo) : list Todo :=
  filter (fun todo => negb (str_eqb (id todo) i)) l.

Definition fetchTodos (online : bool) (st : TodoList.state)
  : M TodoList.state :=
  try
    (response <- fetch online CallGET ;;
     let data := body response in
     ret (setTodos data st))
  catch
    ret st.

Definition handleSubmit (online : bool) (st : TodoList.state)
  : M TodoList.state :=
  if negb (truthy (VStr (trim (TodoList.title st)))) then ret st
  else
    (let st := setLoading true st in
     st <-
       (try
          (response <-
             fetch online
               (CallPOST
                  (JSON_request
                     (VObj [(lit "title", VStr (TodoList.title st));
                            (lit "description",
                             VStr (TodoList.description st))]))) ;;
           if response_ok response then
             (newTodo <- response_todo response ;;
              todos <- as_array (TodoList.todos st) ;;
              ret (setDescription []
                     (setTitle [] (setTodos (Todos (newTodo :: todos)) st))))
           else ret st)
        catch
          ret st) ;;
     ret (setLoading false st)).

Definition toggleComplete (online : bool) (id : jsstring) (completed : bool)
  (st : TodoList.state) : M TodoList.state :=
  try
    (response <-
       fetch online
         (CallPATCH
            (JSON_request
               (VObj [(lit "id", VStr id);
                      (lit "completed", VBool (negb completed))]))) ;;
     if response_ok response then
       (updatedTodo <- response_todo response ;;
        todos <- as_array (TodoList.todos st) ;;
        ret (setTodos (Todos (replace_todo id updatedTodo todos)) st))
     else ret st)
  catch
    ret st.

(** [confirmed] is what the user answers to [confirm(...)]. *)
Definition deleteTodo (online : bool) (confirmed : bool) (id : jsstring)
  (st : TodoList.state) : M TodoList.state :=
  if negb confirmed then ret st
  else
    try
      (response <- fetch online (CallDELETE (DELETE_request id)) ;;
       if response_ok response then
         (todos <- as_array (TodoList.todos st) ;;
          ret (setTodos (Todos (remove_todo id todos)) st))
       else ret st)
    catch
      ret st.

(** [todo.description || ''] is the description, or the empty string
    for [null]. *)
Definition startEditing (todo : Todo) (st : TodoList.state)
  : TodoList.state :=
  setEditDescription
    (match description todo with Some d => d | None => [] end)
    (setEditTitle (title todo) (setEditingId (Some (id todo)) st)).

Definition cancelEditing (st : TodoList.state) : TodoList.state :=
  setEditDescription [] (setEditTitle [] (setEditingId None st)).

Definition saveEdit (online : bool) (id : jsstring) (st : TodoList.state)
  : M TodoList.state :=
  if negb (truthy (VStr (trim (TodoList.editTitle st)))) then ret st
  else
    try
      (response <-
         fetch online
           (CallPATCH
              (JSON_request
                 (VObj [(lit "id", VStr id);
                        (lit "title", VStr (TodoList.editTitle st));
                        (lit "description",
                         VStr (TodoList.editDescription st))]))) ;;
       if response_ok response then
         (updatedTodo <- response_todo response ;;
          todos <- as_array (TodoList.todos st) ;;
          ret (cancelEditing
                 (setTodos (Todos (replace_todo id updatedTodo todos)) st)))
       else ret st)
    catch
      ret st.

(** [todos.filter(todo => todo.completed).length], computed at each
    render. *)
Definition completedCount (st : TodoList.state) : outcome nat :=
  match TodoList.todos st with
  | Todos l => Return (List.length (filter completed l))
  | _ => Throw TypeError
  end.

(** What the user, or the mounting of the component, can make happen:
    the effect that fetches the list, typing in one of the four fields,
    and the buttons. *)
Inductive event : Type :=
| Mounted
| TitleChanged (v : jsstring)
| DescriptionChanged (v : jsstring)
| EditTitleChanged (v : jsstring)
| EditDescriptionChanged (v : jsstring)
| Submitted
| CompleteToggled (id : jsstring) (completed : bool)
| DeleteClicked (id : jsstring) (confirmed : bool)
| EditClicked (todo : Todo)
| CancelClicked
| SaveClicked (id : jsstring).

Definition on_event (online : bool) (ev : event) (st : TodoList.state)
  : M TodoList.state :=
  match ev with
  | Mounted => fetchTodos online st
  | TitleChanged v => ret (setTitle v st)
  | DescriptionChanged v => ret (setDescription v st)
  | EditTitleChanged v => ret (setEditTitle v st)
  | EditDescriptionChanged v => ret (setEditDescription v st)
  | Submitted => handleSubmit online st
  | CompleteToggled id completed => toggleComplete online id completed st
  | DeleteClicked id confirmed => deleteTodo online confirmed id st
  | EditClicked todo => ret (startEditing todo st)
  | CancelClicked => ret (cancelEditing st)
  | SaveClicked id => saveEdit online id st
  end.

(** The component and the store after a sequence of events, each with
    its network and its environment. *)
Fixpoint after_events (evs : list (event * bool * env))
  (st : TodoList.state) (s : store) : TodoList.state * store :=
  match evs with
  | [] => (st, s)
  | (ev, online, e) :: rest =>
      match run (on_event online ev st) e s with
      | (Return st', s') => after_events rest st' s'
      | (Throw _, s') => after_events rest st s'
      end
  end.

(** * Part 2: properties *)

(** ** Vocabulary of the statements *)

(** The body of a create request: title missing, or a string that is
    empty after trimming. *)
Definition title_missing_or_blank (b : value) : Prop :=
  prop b (lit "title") = VUndefined \/
  exists t, prop b (lit "title") = VStr t /\ trim t = [].

(** The fields of a create or update request have the types the
    interface gives them: [completed] a boolean, [title] a string,
    [description] a string or [null], each of them possibly omitted. *)
Definition completed_well_typed (v : value) : Prop :=
  v = VUndefined \/ exists c, v = VBool c.

Definition title_well_typed (v : value) : Prop :=
  v = VUndefined \/ exists x, v = VStr x.

Definition description_well_typed (v : value) : Prop :=
  v = VUndefined \/ v = VNull \/ exists d, v = VStr d.

(** The update request with body [b] can be carried out on store [s]:
    its [id] is a non-empty string that resolves to a record, the fields
    it sends are well typed, and the store can be reached. *)
Definition updatable (b : value) (e : env) (s : store) : Prop :=
  (exists i, prop b (lit "id") = VStr i /\ i <> [] /\
             find_by_id i (rows s) <> None) /\
  completed_well_typed (prop b (lit "completed")) /\
  title_well_typed (prop b (lit "title")) /\
  description_well_typed (prop b (lit "description")) /\
  db_up e = true.

(** The write that the store is asked for, in terms of what the request
    body [b] sends: field by field, then as a whole. *)
Definition sent_completed (b : value) (c : option bool) : Prop :=
  match c with
  | Some x => prop b (lit "completed") = VBool x
  | None => prop b (lit "completed") = VUndefined
  end.

Definition sent_title (b : value) (t : option jsstring) : Prop :=
  match t with
  | Some x => exists y, prop b (lit "title") = VStr y /\ x = trim y
  | None => prop b (lit "title") = VUndefined
  end.

Definition sent_description (b : value) (d : option (option jsstring))
  : Prop :=
  match d with
  | Some (Some x) =>
      exists y, prop b (lit "description") = VStr y /\ x = trim y /\ x <> []
  | Some None =>
      prop b (lit "description") = VNull \/
      exists y, prop b (lit "description") = VStr y /\ trim y = []
  | None => prop b (lit "description") = VUndefined
  end.

Definition sent_patch (b : value) (p : patch) : Prop :=
  sent_completed b (p_completed p) /\
  sent_title b (p_title p) /\
  sent_description b (p_description p).

(** A record [t] and what it has become, [t'], after an update request
    with body [b]: a field that [b] does not send is as it was, and so is
    the whole record when [b] targets another one. *)
Definition untouched_where_absent (b : value) (t t' : Todo) : Prop :=
  id t' = id t /\
  createdAt t' = createdAt t /\
  (prop b (lit "completed") = VUndefined -> completed t' = completed t) /\
  (prop b (lit "title") = VUndefined -> title t' = title t) /\
  (prop b (lit "description") = VUndefined ->
   description t' = description t) /\
  (prop b (lit "id") <> VStr (id t) -> t' = t).

(** The targeted record [t] and what it has become, [t'], after an update
    request with body [b] was carried out at time [now]. *)
Definition updated_as_sent (b : value) (now : Z) (t t' : Todo) : Prop :=
  id t' = id t /\
  createdAt t' = createdAt t /\
  updatedAt t' = now /\
  (forall c, prop b (lit "completed") = VBool c -> completed t' = c) /\
  (prop b (lit "completed") = VUndefined -> completed t' = completed t) /\
  (forall x, prop b (lit "title") = VStr x -> title t' = trim x) /\
  (prop b (lit "title") = VUndefined -> title t' = title t) /\
  (forall d, prop b (lit "description") = VStr d ->
     description t' = match trim d with [] => None | _ => Some (trim d) end) /\
  (prop b (lit "description") = VNull -> description t' = None) /\
  (prop b (lit "description") = VUndefined ->
   description t' = description t).

(** Most recently created first. *)
Definition newest_first (l : list Todo) : Prop :=
  StronglySorted (fun a b => createdAt b <= createdAt a) l.

(** [x] comes before [y] in [l]. *)
Definition before (x y : Todo) (l : list Todo) : Prop :=
  exists l1 l2 l3, l = l1 ++ x :: l2 ++ y :: l3.

(** No stored title is empty or white space only. *)
Definition titles_not_blank (s : store) : Prop :=
  Forall (fun t => blank (title t) = false) (rows s).

(** The request [c], if it is an update that sends a title, sends one
    that is not blank. *)
Definition sends_no_blank_title (c : call) : Prop :=
  match c with
  | CallPATCH req =>
      forall b x, json_body req = Some b ->
                  prop b (lit "title") = VStr x -> blank x = false
  | _ => True
  end.

(** Every stored identifier was handed out by the store. *)
Definition ids_issued (s : store) : Prop :=
  Forall (fun t => exists k, (k < next_seq s)%N /\ id t = fresh_id k) (rows s).

(** An identifier that was handed out and resolves to nothing. *)
Definition retired (i : jsstring) (s : store) : Prop :=
  find_by_id i (rows s) = None /\
  exists k, (k < next_seq s)%N /\ i = fresh_id k.

(** The documented responses of each operation. *)
Definition GET_documented (r : response) : Prop :=
  (exists l, r = {| status := 200; body := Todos l |}) \/
  r = {| status := 500; body := ErrorBody "Failed to fetch todos" |}.

Definition POST_documented (r : response) : Prop :=
  (exists t, r = {| status := 201; body := Item t |}) \/
  r = {| status := 400; body := ErrorBody "Title is required" |} \/
  r = {| status := 500; body := ErrorBody "Failed to create todo" |}.

Definition PATCH_documented (r : response) : Prop :=
  (exists t, r = {| status := 200; body := Item t |}) \/
  r = {| status := 400; body := ErrorBody "Todo ID is required" |} \/
  r = {| status := 500; body := ErrorBody "Failed to update todo" |}.

Definition DELETE_documented (r : response) : Prop :=
  r = {| status := 200; body := MessageBody "Todo deleted successfully" |} \/
  r = {| status := 400; body := ErrorBody "Todo ID is required" |} \/
  r = {| status := 500; body := ErrorBody "Failed to delete todo" |}.

(** What one request can do to the store. *)
Inductive store_step (c : call) (e : env) (s : store) : store -> Prop :=
| step_same : store_step c e s s
| step_insert req r :
    c = CallPOST req ->
    id r = fresh_id (next_seq s) ->
    blank (title r) = false ->
    createdAt r = clock e ->
    store_step c e s
      {| rows := rows s ++ [r]; next_seq := N.succ (next_seq s) |}
| step_update req b i p :
    c = CallPATCH req ->
    json_body req = Some b ->
    prop b (lit "id") = VStr i ->
    sent_patch b p ->
    store_step c e s
      {| rows := update_rows i p (clock e) (rows s); next_seq := next_seq s |}
| step_delete req i :
    c = CallDELETE req ->
    searchParams_get (lit "id") (searchParams req) = Some i ->
    store_step c e s
      {| rows := delete_rows i (rows s); next_seq := next_seq s |}.

(** ** Vocabulary of the further properties *)

(** A stored record is normalized: its title is its own trim, and its
    description, when there is one, is its own trim and is not empty. *)
Definition normalized (t : Todo) : Prop :=
  trim (title t) = title t /\
  match description t with
  | Some d => trim d = d /\ d <> []
  | None => True
  end.

(** A record with nothing changed but the time of its last update. *)
Definition touched (now : Z) (t : Todo) : Todo :=
  {| id := id t;
     title := title t;
     description := description t;
     completed := completed t;
     createdAt := createdAt t;
     updatedAt := now |}.

(** No two stored records have the same identifier. *)
Definition ids_unique (s : store) : Prop := NoDup (map id (rows s)).

(** No leading white space. *)
Definition starts_clean (s : jsstring) : Prop :=
  match s with
  | [] => True
  | c :: _ => is_white_space c = false
  end.

(** The create request with body [b] can be carried out: its title is a
    string that is not empty after trimming, its description is well
    typed, and the store can be reached. *)
Definition creatable (b : value) (e : env) : Prop :=
  (exists t, prop b (lit "title") = VStr t /\ trim t <> []) /\
  description_well_typed (prop b (lit "description")) /\
  db_up e = true.

(** The description that a create request with body [b] stores. *)
Definition created_description (b : value) (d : option jsstring) : Prop :=
  match d with
  | Some x =>
      exists y, prop b (lit "description") = VStr y /\ x = trim y /\ x <> []
  | None =>
      prop b (lit "description") = VUndefined \/
      prop b (lit "description") = VNull \/
      exists y, prop b (lit "description") = VStr y /\ trim y = []
  end.

(** The record that a create request with body [b] stores. *)
Definition created_as_sent (b : value) (e : env) (s : store) (r : Todo)
  : Prop :=
  id r = fresh_id (next_seq s) /\
  (exists t, prop b (lit "title") = VStr t /\ title r = trim t) /\
  created_description b (description r) /\
  completed r = false /\
  createdAt r = clock e /\
  updatedAt r = clock e.

(** An identifier made of ASCII letters and digits. *)
Definition url_plain (i : jsstring) : bool :=
  forallb (fun c => ((48 <=? c) && (c <=? 57)
                     || (65 <=? c) && (c <=? 90)
                     || (97 <=? c) && (c <=? 122))%N) i.

(** An event whose identifier, if it is a delete, goes into the address
    unchanged. *)
Definition plain_event (ev : event) : Prop :=
  match ev with
  | DeleteClicked i _ => url_plain i = true
  | _ => True
  end.

(** The list on screen is the list that the server would send. *)
Definition in_sync (st : TodoList.state) (s : store) : Prop :=
  TodoList.todos st = Todos (order_by_createdAt_desc (rows s)).

(** The request, if any, that an event makes the component send. *)
Definition request_of_event (ev : event) (st : TodoList.state)
  : option call :=
  match ev with
  | Mounted => Some CallGET
  | Submitted =>
      if negb (truthy (VStr (trim (TodoList.title st)))) then None
      else Some (CallPOST
                   (JSON_request
                      (VObj [(lit "title", VStr (TodoList.title st));
                             (lit "description",
                              VStr (TodoList.description st))])))
  | CompleteToggled i c =>
      Some (CallPATCH
              (JSON_request
                 (VObj [(lit "id", VStr i);
                        (lit "completed", VBool (negb c))])))
  | DeleteClicked i confirmed =>
      if negb confirmed then None
      else Some (CallDELETE (DELETE_request i))
  | SaveClicked i =>
      if negb (truthy (VStr (trim (TodoList.editTitle st)))) then None
      else Some (CallPATCH
                   (JSON_request
                      (VObj [(lit "id", VStr i);
                             (lit "title", VStr (TodoList.editTitle st));
                             (lit "description",
                              VStr (TodoList.editDescription st))])))
  | _ => None
  end.

(** ** Two program logics for the monad *)

(** [returns P m]: whenever [m] returns, what it returns satisfies [P]. *)
Definition returns {A} (P : A -> Prop) (m : M A) : Prop :=
  forall e s a s', run m e s = (Return a, s') -> P a.

(** [wp m Q e s]: run from store [s] in environment [e], the computation
    [m] ends with an outcome and a store that satisfy [Q]. *)
Definition wp {A} (m : M A) (Q : outcome A -> store -> Prop)
  (e : env) (s : store) : Prop :=
  Q (fst (run m e s)) (snd (run m e s)).

(** ** Strings and values *)

Lemma str_eqb_eq (a b : jsstring) : str_eqb a b = true <-> a = b.
Proof.
  revert b; induction a as [|x a IH]; intros [|y b]; simpl;
    try (split; congruence).
  rewrite andb_true_iff, N.eqb_eq, IH.
  split; [intros [-> ->]; reflexivity | intros [= -> ->]; auto].
Qed.

Lemma str_eqb_refl (a : jsstring) : str_eqb a a = true.
Proof. apply str_eqb_eq; reflexivity. Qed.

Lemma lit_inj (a b : string) : lit a = lit b -> a = b.
Proof.
  unfold lit. intros H.
  rewrite <- (string_of_list_ascii_of_string a),
          <- (string_of_list_ascii_of_string b).
  f_equal.
  revert H. generalize (list_ascii_of_string a) (list_ascii_of_string b).
  induction l as [|x l IH]; intros [|y l']; simpl; try congruence.
  intros [= Hxy Hl]. f_equal; [|auto].
  rewrite <- (ascii_N_embedding x), <- (ascii_N_embedding y), Hxy.
  reflexivity.
Qed.

Lemma fresh_id_inj (m n : N) : fresh_id m = fresh_id n -> m = n.
Proof.
  unfold fresh_id. intros H. apply lit_inj in H. injection H as H.
  apply Unsigned.to_uint_inj.
  assert (Some (N.to_uint m) = Some (N.to_uint n)) as [= ->]; [|reflexivity].
  rewrite <- !NilEmpty.usu, H. reflexivity.
Qed.

Lemma trim_start_nil_iff (s : jsstring) : trim_start s = [] <-> blank s = true.
Proof.
  unfold blank. induction s as [|c s IH]; simpl; [tauto|].
  destruct (is_white_space c); simpl; [exact IH | split; congruence].
Qed.

Lemma blank_rev (s : jsstring) : blank (rev s) = blank s.
Proof.
  unfold blank. induction s as [|c s IH]; simpl; [reflexivity|].
  rewrite forallb_app, IH. simpl. rewrite andb_true_r. apply andb_comm.
Qed.

Lemma blank_trim_start (s : jsstring) : blank (trim_start s) = blank s.
Proof.
  unfold blank. induction s as [|c s IH]; simpl; [reflexivity|].
  destruct (is_white_space c) eqn:Hc; simpl; [exact IH|].
  rewrite Hc. reflexivity.
Qed.

Lemma blank_trim (s : jsstring) : blank (trim s) = blank s.
Proof.
  unfold trim, trim_end.
  rewrite blank_rev, blank_trim_start, blank_rev. apply blank_trim_start.
Qed.

(** [s.trim() === ''] exactly when [s] is empty or white space only. *)
Lemma trim_nil_iff (s : jsstring) : trim s = [] <-> blank s = true.
Proof.
  unfold trim, trim_end. rewrite <- blank_trim_start, <- blank_rev.
  rewrite <- trim_start_nil_iff.
  split; intros H.
  - apply (f_equal (@rev N)) in H. rewrite rev_involutive in H. exact H.
  - rewrite H. reflexivity.
Qed.

Lemma trim_not_nil_iff (s : jsstring) : trim s <> [] <-> blank s = false.
Proof.
  rewrite trim_nil_iff. destruct (blank s); split; congruence.
Qed.

Lemma is_empty_string_trim (s : jsstring) :
  is_empty_string (VStr (trim s)) = blank s.
Proof.
  destruct (blank s) eqn:Hb.
  - apply trim_nil_iff in Hb. rewrite Hb. reflexivity.
  - apply trim_not_nil_iff in Hb. simpl. destruct (trim s); congruence.
Qed.

Lemma truthy_VStr (i : jsstring) : truthy (VStr i) = true <-> i <> [].
Proof. destruct i; simpl; split; congruence. Qed.

Lemma truthy_not_undefined (v : value) : truthy v = true -> v <> VUndefined.
Proof. intros H ->. discriminate. Qed.

Lemma is_defined_false (v : value) : is_defined v = false -> v = VUndefined.
Proof. destruct v; simpl; congruence. Qed.

Lemma nullish_true (v : value) :
  nullish v = true -> v = VUndefined \/ v = VNull.
Proof. destruct v; simpl; auto; discriminate. Qed.

(** A property is only found on an object, so a value that has one is
    not [null]. *)
Lemma prop_defined_not_nullish (b : value) (k : jsstring) :
  prop b k <> VUndefined -> nullish b = false.
Proof. destruct b; simpl; congruence. Qed.

Lemma if_negb {A} (c : bool) (x y : A) :
  (if negb c then x else y) = (if c then y else x).
Proof. destruct c; reflexivity. Qed.

(** ** Partial correctness: what a handler returns *)

Lemma returns_ret {A} (P : A -> Prop) (a : A) : P a -> returns P (ret a).
Proof. intros H e s a' s' [= <- _]. exact H. Qed.

Lemma returns_throw {A} (P : A -> Prop) (err : error) : returns P (throw err).
Proof. intros e s a s' [=]. Qed.

Lemma returns_bind {A B} (P : B -> Prop) (m : M A) (k : A -> M B) :
  (forall a, returns P (k a)) -> returns P (bind m k).
Proof.
  intros H e s b s'. unfold run, bind.
  destruct (m e s) as [[a|err] s1]; [apply H | intros [=]].
Qed.

(** The catch-all absorbs every throw: a handler always returns, either
    what its body returned or the fallback response. *)
Lemma try_catch_returns {A} (P : A -> Prop) (m : M A) (fallback : A) :
  returns P m -> P fallback ->
  forall e s, exists a s',
    run (try m catch ret fallback) e s = (Return a, s') /\ P a.
Proof.
  intros Hm Hf e s. unfold run, try_catch, ret.
  destruct (m e s) as [[a|err] s1] eqn:Hrun.
  - exists a, s1. split; [reflexivity | exact (Hm e s a s1 Hrun)].
  - exists fallback, s1. split; [reflexivity | exact Hf].
Qed.

Ltac returns_step :=
  lazymatch goal with
  | |- returns _ (ret _) => apply returns_ret
  | |- returns _ (throw _) => apply returns_throw
  | |- returns _ (bind _ _) => apply returns_bind; intro; cbv beta
  | |- returns _ (if ?c then _ else _) => destruct c
  | |- returns _ (let _ := _ in _) => cbv zeta
  end.

(** ** Weakest preconditions *)

Lemma wp_run {A} (m : M A) (e : env) (s : store) (o : outcome A) (s' : store) :
  wp m (fun o1 s1 => o1 = o /\ s1 = s') e s -> run m e s = (o, s').
Proof.
  unfold wp. destruct (run m e s) as [o1 s1]. simpl. intros [-> ->].
  reflexivity.
Qed.

Lemma wp_ret {A} (a : A) (Q : outcome A -> store -> Prop) e s :
  Q (Return a) s -> wp (ret a) Q e s.
Proof. exact (fun H => H). Qed.

Lemma wp_throw {A} (err : error) (Q : outcome A -> store -> Prop) e s :
  Q (Throw err) s -> wp (throw err) Q e s.
Proof. exact (fun H => H). Qed.

Lemma wp_bind {A B} (m : M A) (k : A -> M B)
    (Q : outcome B -> store -> Prop) e s :
  wp m (fun o s' =>
          match o with
          | Return a => wp (k a) Q e s'
          | Throw err => Q (Throw err) s'
          end) e s ->
  wp (bind m k) Q e s.
Proof.
  unfold wp, run, bind. destruct (m e s) as [[a|err] s']; simpl; auto.
Qed.

Lemma wp_try_catch {A} (m h : M A) (Q : outcome A -> store -> Prop) e s :
  wp m (fun o s' =>
          match o with
          | Return a => Q (Return a) s'
          | Throw _ => wp h Q e s'
          end) e s ->
  wp (try m catch h) Q e s.
Proof.
  unfold wp, run, try_catch. destruct (m e s) as [[a|err] s']; simpl; auto.
Qed.

Lemma wp_ask (Q : outcome env -> store -> Prop) e s :
  Q (Return e) s -> wp ask Q e s.
Proof. exact (fun H => H). Qed.

Lemma wp_get (Q : outcome store -> store -> Prop) e s :
  Q (Return s) s -> wp get Q e s.
Proof. exact (fun H => H). Qed.

Lemma wp_put (s' : store) (Q : outcome unit -> store -> Prop) e s :
  Q (Return tt) s' -> wp (put s') Q e s.
Proof. exact (fun H => H). Qed.

(** What the context knows of the request is used first; then the
    scrutinee of a test is rewritten with an equation of the context when
    there is one, evaluated when it is closed, and split by cases
    otherwise. *)
Ltac wp_known :=
  repeat match goal with
         | H : prop _ _ = _ |- _ => rewrite H
         | H : trim _ = _ |- _ => rewrite H
         end;
  cbv beta iota.

Ltac head_of t :=
  lazymatch t with
  | ?f _ => head_of f
  | _ => t
  end.

Ltac wp_case c :=
  first
    [ match goal with H : c = _ |- _ => rewrite H end
    | let c' := eval cbn in c in
      let h := head_of c' in
      is_constructor h; change c with c'
    | destruct c eqn:? ];
  cbv beta iota.

Ltac wp_step :=
  lazymatch goal with
  | |- wp (ret _) _ _ _ => apply wp_ret; cbv beta iota
  | |- wp (throw _) _ _ _ => apply wp_throw; cbv beta iota
  | |- wp (store_throw _) _ _ _ => apply wp_throw; cbv beta iota
  | |- wp ask _ _ _ => apply wp_ask; cbv beta iota
  | |- wp get _ _ _ => apply wp_get; cbv beta iota
  | |- wp (put _) _ _ _ => apply wp_put; cbv beta iota
  | |- wp (bind _ _) _ _ _ => apply wp_bind
  | |- wp (try_catch _ _) _ _ _ => apply wp_try_catch
  | |- wp (let _ := _ in _) _ _ _ => cbv zeta
  | |- wp (if negb _ then _ else _) _ _ _ => rewrite if_negb
  | |- wp (if ?c then _ else _) _ _ _ => progress wp_known || wp_case c
  | |- wp (match ?x with _ => _ end) _ _ _ => progress wp_known || wp_case x
  | |- wp (request_json _) _ _ _ => unfold request_json
  | |- wp (destructure _) _ _ _ => unfold destructure
  | |- wp (call_trim _) _ _ _ => unfold call_trim
  | |- wp (optional_call_trim _) _ _ _ => unfold optional_call_trim
  | |- wp prisma.todo.findMany_orderBy_createdAt_desc _ _ _ =>
      unfold prisma.todo.findMany_orderBy_createdAt_desc
  | |- wp (prisma.todo.create _) _ _ _ => unfold prisma.todo.create
  | |- wp (prisma.todo.update _ _) _ _ _ => unfold prisma.todo.update
  | |- wp (prisma.todo.delete _) _ _ _ => unfold prisma.todo.delete
  end.

(** Runs a handler symbolically, one goal per path. *)
Ltac wp_run_handler :=
  unfold GET, POST, PATCH, DELETE; repeat wp_step.

(** ** Data objects *)

Lemma own_property_set_prop (k k' : jsstring) (v : value)
    (l : list (jsstring * value)) :
  own_property k' (set_prop k v l) =
    if str_eqb k' k then Some v else own_property k' l.
Proof.
  unfold set_prop. induction l as [|[k0 v0] l IH]; simpl.
  - reflexivity.
  - rewrite IH. destruct (str_eqb k' k); reflexivity.
Qed.

Lemma prop_set_prop (k k' : jsstring) (v : value)
    (l : list (jsstring * value)) :
  prop (VObj (set_prop k v l)) k' =
    if str_eqb k' k then v else prop (VObj l) k'.
Proof.
  simpl. rewrite own_property_set_prop.
  destruct (str_eqb k' k); reflexivity.
Qed.

(** What the store reads from a data object it has accepted. *)
Lemma check_data_fields (data : list (jsstring * value)) (p : patch) :
  check_data data = Some p ->
  check_completed (prop (VObj data) (lit "completed")) = Some (p_completed p)
  /\ check_title (prop (VObj data) (lit "title")) = Some (p_title p)
  /\ check_description (prop (VObj data) (lit "description")) =
       Some (p_description p).
Proof.
  unfold check_data.
  destruct (check_completed _) as [c|]; [|discriminate].
  destruct (check_title _) as [t|]; [|discriminate].
  destruct (check_description _) as [d|]; [|discriminate].
  intros [= <-]. auto.
Qed.

Lemma check_completed_inv (v : value) (c : option bool) :
  check_completed v = Some c ->
  match c with Some b => v = VBool b | None => v = VUndefined end.
Proof. destruct v; simpl; intros [= <-]; reflexivity. Qed.

Lemma check_title_inv (v : value) (t : option jsstring) :
  check_title v = Some t ->
  match t with Some x => v = VStr x | None => v = VUndefined end.
Proof. destruct v; simpl; intros [= <-]; reflexivity. Qed.

Lemma check_description_inv (v : value) (d : option (option jsstring)) :
  check_description v = Some d ->
  match d with
  | Some (Some x) => v = VStr x
  | Some None => v = VNull
  | None => v = VUndefined
  end.
Proof. destruct v; simpl; intros [= <-]; reflexivity. Qed.

(** The patch object once [completed] has been looked at. *)
Lemma prop_completed_data (v : value) (k : jsstring) :
  prop (VObj (if is_defined v then set_prop (lit "completed") v [] else [])) k
  = if str_eqb k (lit "completed") then v else VUndefined.
Proof.
  destruct v; cbn [is_defined]; rewrite ?prop_set_prop;
    destruct (str_eqb k (lit "completed")); reflexivity.
Qed.

Lemma check_data_None (data : list (jsstring * value)) :
  check_data data = None ->
  check_completed (prop (VObj data) (lit "completed")) = None \/
  check_title (prop (VObj data) (lit "title")) = None \/
  check_description (prop (VObj data) (lit "description")) = None.
Proof.
  unfold check_data.
  destruct (check_completed _); [|auto].
  destruct (check_title _); [|auto].
  destruct (check_description _); [discriminate|auto].
Qed.

Lemma check_completed_None (v : value) :
  check_completed v = None -> ~ completed_well_typed v.
Proof. intros H [->|[c ->]]; discriminate. Qed.

(** Evaluates the comparisons of property names. *)
Ltac eval_names_in H :=
  repeat match type of H with
         | context [str_eqb (lit ?a) (lit ?b)] =>
             let r := eval vm_compute in (str_eqb (lit a) (lit b)) in
             change (str_eqb (lit a) (lit b)) with r in H
         end;
  cbv iota in H.

Ltac read_data_in H :=
  rewrite ?prop_set_prop, ?prop_completed_data in H; eval_names_in H.

Lemma sent_completed_intro (b : value) (c : option bool) :
  check_completed (prop b (lit "completed")) = Some c -> sent_completed b c.
Proof. intros H. apply check_completed_inv in H. exact H. Qed.

Lemma sent_title_absent (b : value) (t : option jsstring) :
  is_defined (prop b (lit "title")) = false ->
  check_title VUndefined = Some t -> sent_title b t.
Proof. intros H [= <-]. apply is_defined_false. exact H. Qed.

Lemma sent_title_string (b : value) (x : jsstring) (t : option jsstring) :
  prop b (lit "title") = VStr x ->
  check_title (VStr (trim x)) = Some t -> sent_title b t.
Proof. intros H [= <-]. exists x. auto. Qed.

Lemma sent_description_absent (b : value) (d : option (option jsstring)) :
  is_defined (prop b (lit "description")) = false ->
  check_description VUndefined = Some d -> sent_description b d.
Proof. intros H [= <-]. apply is_defined_false. exact H. Qed.

Lemma sent_description_null (b : value) (d : option (option jsstring)) :
  is_defined (prop b (lit "description")) = true ->
  nullish (prop b (lit "description")) = true ->
  check_description (or_else VUndefined VNull) = Some d ->
  sent_description b d.
Proof.
  intros Hdef Hnull [= <-]. left.
  destruct (nullish_true _ Hnull) as [H|H]; [|exact H].
  rewrite H in Hdef. discriminate.
Qed.

Lemma sent_description_string (b : value) (x : jsstring)
    (d : option (option jsstring)) :
  prop b (lit "description") = VStr x ->
  check_description (or_else (VStr (trim x)) VNull) = Some d ->
  sent_description b d.
Proof.
  intros H. unfold or_else. simpl.
  destruct (trim x) as [|c y] eqn:Hx; intros [= <-]; simpl.
  - right. exists x. auto.
  - exists x. rewrite Hx. repeat split; [exact H | discriminate].
Qed.

Lemma sent_patch_well_typed (b : value) (p : patch) :
  sent_patch b p ->
  completed_well_typed (prop b (lit "completed")) /\
  title_well_typed (prop b (lit "title")) /\
  description_well_typed (prop b (lit "description")).
Proof.
  unfold sent_patch, sent_completed, sent_title, sent_description.
  unfold completed_well_typed, title_well_typed, description_well_typed.
  intros (Hc & Ht & Hd). repeat split.
  - destruct (p_completed p); eauto.
  - destruct (p_title p) as [x|]; [destruct Ht as (y & Hy & _)|]; eauto.
  - destruct (p_description p) as [[x|]|].
    + destruct Hd as (y & Hy & _). eauto.
    + destruct Hd as [Hd|(y & Hy & _)]; eauto.
    + auto.
Qed.

(** ** Looking records up *)

Lemma find_by_id_Some (i : jsstring) (l : list Todo) (t : Todo) :
  find_by_id i l = Some t -> In t l /\ id t = i.
Proof.
  intros H. apply find_some in H. destruct H as [Hin Heq].
  apply str_eqb_eq in Heq. auto.
Qed.

Lemma find_by_id_app (i : jsstring) (l1 l2 : list Todo) :
  find_by_id i (l1 ++ l2) =
    match find_by_id i l1 with
    | Some t => Some t
    | None => find_by_id i l2
    end.
Proof.
  unfold find_by_id. induction l1 as [|t l1 IH]; simpl; [reflexivity|].
  destruct (str_eqb (id t) i); [reflexivity | exact IH].
Qed.

Lemma find_by_id_update_rows (i j : jsstring) (p : patch) (now : Z)
    (l : list Todo) :
  find_by_id i (update_rows j p now l) =
    match find_by_id i l with
    | Some t => Some (if str_eqb (id t) j then apply_patch p now t else t)
    | None => None
    end.
Proof.
  unfold find_by_id, update_rows. induction l as [|t l IH]; simpl.
  - reflexivity.
  - destruct (str_eqb (id t) j) eqn:Hj; simpl;
      (destruct (str_eqb (id t) i); [rewrite Hj; reflexivity | exact IH]).
Qed.

Lemma find_by_id_delete_rows_None (i j : jsstring) (l : list Todo) :
  find_by_id i l = None -> find_by_id i (delete_rows j l) = None.
Proof.
  unfold find_by_id, delete_rows. induction l as [|t l IH]; simpl.
  - reflexivity.
  - destruct (str_eqb (id t) i) eqn:Hi; [discriminate|]. intros H.
    destruct (str_eqb (id t) j); simpl; [auto|]. rewrite Hi. auto.
Qed.

(** After [DELETE ... WHERE id = i] the identifier resolves to nothing. *)
Lemma find_by_id_delete_rows_same (i : jsstring) (l : list Todo) :
  find_by_id i (delete_rows i l) = None.
Proof.
  unfold find_by_id, delete_rows. induction l as [|t l IH]; simpl.
  - reflexivity.
  - destruct (str_eqb (id t) i) eqn:Hi; simpl; [exact IH|].
    rewrite Hi. exact IH.
Qed.

(** ** What each handler does

    The update handler first: every run of it either carries the request
    out, or answers 400 or 500 and leaves the store as it was; and it
    carries the request out exactly when the request is [updatable]. *)

Lemma PATCH_spec (req : request) (e : env) (s : store) (b : value) :
  json_body req = Some b ->
  (updatable b e s /\
   exists i p t,
     prop b (lit "id") = VStr i /\ sent_patch b p /\
     find_by_id i (rows s) = Some t /\
     run (PATCH req) e s =
       (Return {| status := 200; body := Item (apply_patch p (clock e) t) |},
        {| rows := update_rows i p (clock e) (rows s);
           next_seq := next_seq s |}))
  \/
  (~ updatable b e s /\
   exists r,
     run (PATCH req) e s = (Return r, s) /\
     (r = {| status := 400; body := ErrorBody "Todo ID is required" |} \/
      r = {| status := 500; body := ErrorBody "Failed to update todo" |})).
Proof.
  intros Hb.
  cut (wp (PATCH req)
         (fun o s' =>
            (updatable b e s /\
             exists i p t,
               prop b (lit "id") = VStr i /\ sent_patch b p /\
               find_by_id i (rows s) = Some t /\
               (o, s') =
               (Return {| status := 200;
                          body := Item (apply_patch p (clock e) t) |},
                {| rows := update_rows i p (clock e) (rows s);
                   next_seq := next_seq s |}))
            \/
            (~ updatable b e s /\
             exists r,
               (o, s') = (Return r, s) /\
               (r = {| status := 400;
                       body := ErrorBody "Todo ID is required" |} \/
                r = {| status := 500;
                       body := ErrorBody "Failed to update todo" |}))) e s).
  { unfold wp. destruct (run (PATCH req) e s). exact (fun H => H). }
  wp_run_handler.
  all: try solve
    [ right; split;
      [ intros ([i (Hi & Hne & Hf)] & Hc & Ht & Hd & Hup)
      | eexists; split; [reflexivity | auto] ];
      first
        [ congruence
        | destruct Ht as [Ht|[x Ht]]; congruence
        | destruct Hd as [Hd|[Hd|[d Hd]]]; congruence
        | destruct b; discriminate
        | rewrite Hi in *; apply truthy_VStr in Hne; congruence
        | match goal with
          | H : check_data _ = None |- _ =>
              apply check_data_None in H; destruct H as [H|[H|H]];
              read_data_in H;
              [ apply check_completed_None in H; contradiction
              | discriminate
              | unfold or_else in H;
                repeat match type of H with
                       | context [if ?c then _ else _] => destruct c
                       end;
                discriminate ]
          end ] ].
  all: match goal with
       | H : check_data _ = Some ?p |- _ =>
           assert (sent_patch b p) as Hsent
             by (apply check_data_fields in H; destruct H as (Hc & Ht & Hd);
                 read_data_in Hc; read_data_in Ht; read_data_in Hd;
                 repeat split;
                 eauto using sent_completed_intro, sent_title_absent,
                   sent_title_string, sent_description_absent,
                   sent_description_null, sent_description_string)
       end.
  all: left; split;
    [ split;
      [ eexists; repeat split;
        [ eassumption | apply truthy_VStr; assumption | congruence ]
      | destruct (sent_patch_well_typed _ _ Hsent) as (? & ? & ?); auto ]
    | do 3 eexists;
      split; [reflexivity|];
      split; [exact Hsent|];
      split; [eassumption | reflexivity] ].
Qed.

Lemma PATCH_unparseable (req : request) (e : env) (s : store) :
  json_body req = None ->
  run (PATCH req) e s =
    (Return {| status := 500; body := ErrorBody "Failed to update todo" |}, s).
Proof. intros Hb. apply wp_run. wp_run_handler. auto. Qed.

Lemma GET_run (e : env) (s : store) :
  db_up e = true ->
  run GET e s =
    (Return {| status := 200;
               body := Todos (order_by_createdAt_desc (rows s)) |}, s).
Proof. intros Hup. apply wp_run. wp_run_handler. auto. Qed.

(** A create that was answered with 201 appended the record it returned,
    stamped with the clock reading of the request. *)
Lemma POST_success (req : request) (e : env) (s s' : store) (r : Todo) :
  run (POST req) e s = (Return {| status := 201; body := Item r |}, s') ->
  rows s' = rows s ++ [r] /\ createdAt r = clock e.
Proof.
  intros Hrun.
  cut (wp (POST req)
         (fun o s1 =>
            o = Return {| status := 201; body := Item r |} ->
            rows s1 = rows s ++ [r] /\ createdAt r = clock e) e s).
  { unfold wp. rewrite Hrun. simpl. auto. }
  wp_run_handler; try discriminate.
  all: intros [= <-]; split; reflexivity.
Qed.

(** A delete that was answered with 200 found its target and removed it. *)
Lemma DELETE_success (req : request) (e : env) (s s' : store) (i : jsstring) :
  searchParams_get (lit "id") (searchParams req) = Some i ->
  run (DELETE req) e s =
    (Return {| status := 200;
               body := MessageBody "Todo deleted successfully" |}, s') ->
  i <> [] /\
  (exists t, find_by_id i (rows s) = Some t) /\
  s' = {| rows := delete_rows i (rows s); next_seq := next_seq s |}.
Proof.
  intros Hid Hrun.
  cut (wp (DELETE req)
         (fun o s1 =>
            o = Return {| status := 200;
                          body := MessageBody "Todo deleted successfully" |} ->
            i <> [] /\
            (exists t, find_by_id i (rows s) = Some t) /\
            s1 = {| rows := delete_rows i (rows s);
                    next_seq := next_seq s |}) e s).
  { unfold wp. rewrite Hrun. simpl. auto. }
  unfold DELETE. rewrite Hid. simpl nullable.
  repeat wp_step; try discriminate.
  intros _. split; [apply truthy_VStr; assumption|]. split; [eauto|reflexivity].
Qed.

(** ** The store between requests *)

Lemma handle_store_step (c : call) (e : env) (s : store) :
  store_step c e s (snd (run (handle c) e s)).
Proof.
  destruct c as [|req|req|req]; simpl.
  - change (wp GET (fun _ s' => store_step CallGET e s s') e s).
    wp_run_handler; apply step_same.
  - change (wp (POST req) (fun _ s' => store_step (CallPOST req) e s s') e s).
    wp_run_handler; try apply step_same.
    all: apply (step_insert _ _ _ req); try reflexivity; simpl.
    all: try match goal with
             | H : check_data _ = Some _ |- _ =>
                 apply check_data_fields in H; destruct H as (_ & H & _);
                 apply check_title_inv in H; simpl in H; injection H as <-
             end.
    all: rewrite blank_trim; rewrite <- is_empty_string_trim; assumption.
  - destruct (json_body req) as [b|] eqn:Hb.
    + destruct (PATCH_spec req e s b Hb)
        as [(_ & i & p & t & Hid & Hsent & _ & ->) | (_ & r & -> & _)]; simpl.
      * apply (step_update _ _ _ req b); auto.
      * apply step_same.
    + rewrite (PATCH_unparseable req e s Hb). apply step_same.
  - change (wp (DELETE req)
              (fun _ s' => store_step (CallDELETE req) e s s') e s).
    unfold DELETE.
    destruct (searchParams_get (lit "id") (searchParams req)) as [i|] eqn:Hid;
      simpl nullable; repeat wp_step; try apply step_same.
    apply (step_delete _ _ _ req); [reflexivity | assumption].
Qed.

(** Stored identifiers were all handed out by the store. *)
Lemma ids_issued_step (c : call) (e : env) (s s' : store) :
  store_step c e s s' -> ids_issued s -> ids_issued s'.
Proof.
  unfold ids_issued. intros Hstep H.
  destruct Hstep as [|req r _ Hr _ _|req b i p _ _ _ _|req i _ _]; simpl.
  - exact H.
  - apply Forall_app. split.
    + eapply Forall_impl; [|exact H]. simpl.
      intros t (k & Hk & Ht). exists k. split; [lia | exact Ht].
    + constructor; [|constructor]. exists (next_seq s). split; [lia | exact Hr].
  - unfold update_rows. apply Forall_map.
    eapply Forall_impl; [|exact H]. simpl.
    intros t Ht. destruct (str_eqb (id t) i); exact Ht.
  - unfold delete_rows. apply Forall_forall. intros t Ht.
    apply filter_In in Ht. destruct Ht as [Ht _].
    rewrite Forall_forall in H. auto.
Qed.

Lemma ids_issued_store_after (cs : list (call * env)) (s : store) :
  ids_issued s -> ids_issued (store_after cs s).
Proof.
  revert s. induction cs as [|[c e] cs IH]; intros s Hs; simpl; [exact Hs|].
  apply IH. eapply ids_issued_step; [apply handle_store_step | exact Hs].
Qed.

Lemma reachable_ids_issued (s : store) : reachable s -> ids_issued s.
Proof.
  intros [cs <-]. apply ids_issued_store_after. constructor.
Qed.

(** An identifier that was handed out and resolves to nothing is never
    handed out again. *)
Lemma retired_step (i : jsstring) (c : call) (e : env) (s s' : store) :
  store_step c e s s' -> retired i s -> retired i s'.
Proof.
  intros Hstep [Hnone (k & Hk & Hi)].
  destruct Hstep as [|req r _ Hr _ _|req b j p _ _ _ _|req j _ _]; simpl.
  - split; [exact Hnone | eauto].
  - split; [|exists k; simpl; split; [lia | exact Hi]].
    simpl. rewrite find_by_id_app, Hnone. unfold find_by_id. simpl.
    destruct (str_eqb (id r) i) eqn:Heq; [|reflexivity].
    apply str_eqb_eq in Heq. rewrite Hr, Hi in Heq.
    apply fresh_id_inj in Heq. lia.
  - split; [|eauto]. simpl. rewrite find_by_id_update_rows, Hnone.
    reflexivity.
  - split; [|eauto]. simpl. apply find_by_id_delete_rows_None. exact Hnone.
Qed.

Lemma retired_reachable_from (i : jsstring) (s s' : store) :
  reachable_from s s' -> retired i s -> retired i s'.
Proof.
  intros [cs <-]. revert s.
  induction cs as [|[c e] cs IH]; intros s Hr; simpl; [exact Hr|].
  apply IH. eapply retired_step; [apply handle_store_step | exact Hr].
Qed.

(** Create, delete and list keep every stored title non-blank, and so
    does an update unless the title it sends is blank. *)
Lemma titles_not_blank_step (c : call) (e : env) (s : store) :
  sends_no_blank_title c ->
  titles_not_blank s ->
  titles_not_blank (snd (run (handle c) e s)).
Proof.
  unfold titles_not_blank. intros Hc Hs.
  destruct (handle_store_step c e s)
    as [|req r _ _ Hr _|req b i p -> Hb _ Hsent|req i _ _]; simpl.
  - exact Hs.
  - apply Forall_app. split; [exact Hs|]. constructor; [exact Hr|constructor].
  - unfold update_rows. apply Forall_map.
    eapply Forall_impl; [|exact Hs]. simpl. intros t Ht.
    destruct (str_eqb (id t) i); [|exact Ht]. simpl.
    destruct Hsent as (_ & Htitle & _). unfold sent_title in Htitle.
    destruct (p_title p) as [x|]; [|exact Ht].
    destruct Htitle as (y & Hy & ->). rewrite blank_trim.
    exact (Hc b y Hb Hy).
  - unfold delete_rows. apply Forall_forall. intros t Ht.
    apply filter_In in Ht. destruct Ht as [Ht _].
    rewrite Forall_forall in Hs. auto.
Qed.

(** * The operations *)

(** ** Create *)

(** C3, amended.  A create request whose body is a JSON value other
    than [null] and whose [title] is missing, or is a string that is
    empty after trimming, is answered with status 400 and the message
    "Title is required"; the store is left as it was, whatever its state
    and whether or not it can be reached.  (The body [null] has no
    [title] either, and is answered with the 500 of the catch-all: see
    the lemma after the next.) *)
Theorem POST_title_required (req : request) (e : env) (s : store) (b : value) :
  json_body req = Some b ->
  nullish b = false ->
  title_missing_or_blank b ->
  run (POST req) e s =
    (Return {| status := 400; body := ErrorBody "Title is required" |}, s).
Proof.
  intros Hb Hnn Ht. apply wp_run.
  destruct Ht as [Ht | (t & Ht & Hnil)]; wp_run_handler; auto.
Qed.

Lemma POST_title_required_witness :
  run (POST {| json_body :=
                 Some (VObj [(lit "title", VStr (lit "  "));
                             (lit "description", VStr (lit "milk"))]);
               searchParams := [] |})
      {| clock := 1000; db_up := true |}
      {| rows := []; next_seq := 0 |} =
    (Return {| status := 400; body := ErrorBody "Title is required" |},
     {| rows := []; next_seq := 0 |}).
Proof.
  eapply POST_title_required; [reflexivity | reflexivity |].
  right. exists (lit "  "). split; reflexivity.
Defined.

(** C3 as it was stated fails for the body [null]: its [title] is
    missing, the destructuring of line 26 throws inside the [try], and
    the answer is the 500 with "Failed to create todo", not the 400. *)
Lemma POST_title_required_counterexample :
  let req := {| json_body := Some VNull; searchParams := [] |} in
  let e := {| clock := 1000; db_up := true |} in
  let s := {| rows := []; next_seq := 0 |} in
  title_missing_or_blank VNull /\
  run (POST req) e s =
    (Return {| status := 500; body := ErrorBody "Failed to create todo" |},
     s) /\
  run (POST req) e s <>
    (Return {| status := 400; body := ErrorBody "Title is required" |}, s).
Proof.
  intros req e s.
  assert (run (POST req) e s =
          (Return {| status := 500;
                     body := ErrorBody "Failed to create todo" |}, s)) as H
    by reflexivity.
  split; [left; reflexivity|]. split; [exact H|].
  rewrite H. discriminate.
Qed.

(** C9.  A create request whose [title] is present and truthy but is not
    a string is answered with status 500 and the message "Failed to
    create todo", never with the 400, and nothing is persisted. *)
Theorem POST_title_not_a_string (req : request) (e : env) (s : store)
    (b : value) :
  json_body req = Some b ->
  truthy (prop b (lit "title")) = true ->
  (forall t, prop b (lit "title") <> VStr t) ->
  run (POST req) e s =
    (Return {| status := 500; body := ErrorBody "Failed to create todo" |}, s).
Proof.
  intros Hb Htruthy Hstr. apply wp_run.
  assert (Hnn := prop_defined_not_nullish b (lit "title")
                   (truthy_not_undefined _ Htruthy)).
  destruct (prop b (lit "title")) as [| | | | t | |] eqn:Ht;
    try (destruct (Hstr t); reflexivity);
    wp_run_handler; auto.
Qed.

Lemma POST_title_not_a_string_witness :
  let req := {| json_body := Some (VObj [(lit "title", VNum 42)]);
                searchParams := [] |} in
  let e := {| clock := 1000; db_up := true |} in
  let s := {| rows := []; next_seq := 0 |} in
  run (POST req) e s =
    (Return {| status := 500; body := ErrorBody "Failed to create todo" |}, s).
Proof.
  intros req e s.
  apply (POST_title_not_a_string req e s (VObj [(lit "title", VNum 42)]));
    [reflexivity | reflexivity | discriminate].
Defined.

(** C2.  A create request whose [title] is a string that is not empty
    after trimming (and whose [description], if sent, is a string or
    [null]), handled while the store can be reached, is answered with
    status 201 and the new Task; the store gains exactly that one record,
    at the end of the table.  The stored title is the trimmed title; the
    stored description is the trimmed description, and is absent when the
    field was omitted, was [null], or is empty after trimming. *)
Theorem POST_creates (req : request) (e : env) (s : store)
    (b : value) (t : jsstring) :
  json_body req = Some b ->
  prop b (lit "title") = VStr t ->
  trim t <> [] ->
  description_well_typed (prop b (lit "description")) ->
  db_up e = true ->
  exists r,
    run (POST req) e s =
      (Return {| status := 201; body := Item r |},
       {| rows := rows s ++ [r]; next_seq := N.succ (next_seq s) |}) /\
    id r = fresh_id (next_seq s) /\
    title r = trim t /\
    completed r = false /\
    createdAt r = clock e /\ updatedAt r = clock e /\
    (prop b (lit "description") = VUndefined -> description r = None) /\
    (prop b (lit "description") = VNull -> description r = None) /\
    (forall d, prop b (lit "description") = VStr d ->
       description r = match trim d with [] => None | _ => Some (trim d) end).
Proof.
  intros Hb Ht Hne Hd Hup.
  assert (nullish b = false) as Hnn
    by (apply (prop_defined_not_nullish b (lit "title")); congruence).
  assert (truthy (VStr t) = true) as Htruthy.
  { destruct t; [destruct Hne|]; reflexivity. }
  assert (is_empty_string (VStr (trim t)) = false) as Hempty.
  { simpl. destruct (trim t); congruence. }
  set (stored := fun d : option jsstring =>
         {| id := fresh_id (next_seq s); title := trim t; description := d;
            completed := false; createdAt := clock e; updatedAt := clock e |}).
  destruct Hd as [Hd | [Hd | [d Hd]]].
  - exists (stored None). split; [|repeat split; congruence].
    apply wp_run. wp_run_handler; try discriminate. auto.
  - exists (stored None). split; [|repeat split; congruence].
    apply wp_run. wp_run_handler; try discriminate. auto.
  - exists (stored match trim d with [] => None | _ => Some (trim d) end).
    split; [|repeat split; try congruence;
             intros d0 H; rewrite Hd in H; injection H as <-; reflexivity].
    apply wp_run. destruct (trim d) as [|c d'] eqn:Htd;
      wp_run_handler; try discriminate; auto.
Qed.
Lemma POST_creates_witness :
  let req := {| json_body :=
                  Some (VObj [(lit "title", VStr (lit " buy milk "));
                              (lit "description", VStr (lit "  "))]);
                searchParams := [] |} in
  let e := {| clock := 1000; db_up := true |} in
  let s := {| rows := [mkTodo (lit "c0") (lit "tea") None false 10 10];
              next_seq := 1 |} in
  exists r,
    run (POST req) e s =
      (Return {| status := 201; body := Item r |},
       {| rows := rows s ++ [r]; next_seq := 2 |}) /\
    r = mkTodo (lit "c1") (lit "buy milk") None false 1000 1000.
Proof.
  intros req e s.
  destruct (POST_creates req e s
              (VObj [(lit "title", VStr (lit " buy milk "));
                     (lit "description", VStr (lit "  "))])
              (lit " buy milk "))
    as (r & Hrun & Hid & Htitle & Hc & Hca & Hua & _ & _ & Hd).
  - reflexivity.
  - reflexivity.
  - discriminate.
  - right; right. exists (lit "  "). reflexivity.
  - reflexivity.
  - exists r. split; [exact Hrun|].
    specialize (Hd (lit "  ") eq_refl).
    destruct r; simpl in *; subst. reflexivity.
Defined.

(** ** Update *)

Lemma apply_patch_as_sent (b : value) (p : patch) (now : Z) (t : Todo) :
  sent_patch b p -> updated_as_sent b now t (apply_patch p now t).
Proof.
  unfold sent_patch, sent_completed, sent_title, sent_description.
  intros (Hc & Ht & Hd). unfold updated_as_sent, apply_patch. simpl.
  repeat split.
  - intros c H. destruct (p_completed p); congruence.
  - intros H. destruct (p_completed p); congruence.
  - intros x H. destruct (p_title p); [destruct Ht as (y & Hy & ->)|];
      congruence.
  - intros H. destruct (p_title p); [destruct Ht as (y & Hy & ->)|];
      congruence.
  - intros d H. destruct (p_description p) as [[x|]|].
    + destruct Hd as (y & Hy & -> & Hne).
      assert (y = d) as -> by congruence.
      destruct (trim d); congruence.
    + destruct Hd as [Hd|(y & Hy & Hnil)]; [congruence|].
      assert (y = d) as -> by congruence. rewrite Hnil. reflexivity.
    + congruence.
  - intros H. destruct (p_description p) as [[x|]|].
    + destruct Hd as (y & Hy & _). congruence.
    + reflexivity.
    + congruence.
  - intros H. destruct (p_description p) as [[x|]|].
    + destruct Hd as (y & Hy & _). congruence.
    + destruct Hd as [Hd|(y & Hy & _)]; congruence.
    + reflexivity.
Qed.

Lemma apply_patch_untouched (b : value) (p : patch) (now : Z) (t : Todo) :
  sent_patch b p ->
  prop b (lit "id") = VStr (id t) ->
  untouched_where_absent b t (apply_patch p now t).
Proof.
  intros Hsent Hid.
  destruct (apply_patch_as_sent b p now t Hsent)
    as (H1 & H2 & _ & _ & H3 & _ & H4 & _ & _ & H5).
  unfold untouched_where_absent. repeat split; auto. congruence.
Qed.

Lemma untouched_refl (b : value) (t : Todo) : untouched_where_absent b t t.
Proof. unfold untouched_where_absent. repeat split; auto. Qed.

Lemma update_rows_untouched (b : value) (i : jsstring) (p : patch) (now : Z)
    (l : list Todo) :
  prop b (lit "id") = VStr i -> sent_patch b p ->
  Forall2 (untouched_where_absent b) l (update_rows i p now l).
Proof.
  intros Hid Hsent. unfold update_rows.
  induction l as [|t l IH]; simpl; constructor; [|exact IH].
  destruct (str_eqb (id t) i) eqn:Hi.
  - apply str_eqb_eq in Hi. subst i. apply apply_patch_untouched; assumption.
  - apply untouched_refl.
Qed.

Lemma Forall2_untouched_refl (b : value) (l : list Todo) :
  Forall2 (untouched_where_absent b) l l.
Proof. induction l; constructor; auto using untouched_refl. Qed.

(** C1.  An update request changes the fields its body sends and no
    others.  Whatever the request and whether or not it succeeds, every
    stored record keeps its [completed] flag when [completed] is absent
    from the body, its title when [title] is absent, and its description
    when [description] is absent, and a record that is not the target is
    not changed at all.  When the request can be carried out, it is
    answered with status 200 and the targeted record as it now is: each
    field that was sent has the value sent (the title trimmed, the
    description trimmed), and a description sent as [null], or as a string
    that is empty after trimming, is stored as absent. *)
Theorem PATCH_changes_only_sent_fields (req : request) (e : env) (s : store)
    (b : value) :
  json_body req = Some b ->
  Forall2 (untouched_where_absent b)
    (rows s) (rows (snd (run (PATCH req) e s)))
  /\
  (updatable b e s ->
   exists i t t',
     prop b (lit "id") = VStr i /\
     find_by_id i (rows s) = Some t /\
     fst (run (PATCH req) e s) = Return {| status := 200; body := Item t' |} /\
     find_by_id i (rows (snd (run (PATCH req) e s))) = Some t' /\
     updated_as_sent b (clock e) t t').
Proof.
  intros Hb.
  destruct (PATCH_spec req e s b Hb)
    as [(Hup & i & p & t & Hid & Hsent & Hfind & Hrun)
       | (Hnot & r & Hrun & _)];
    rewrite Hrun; simpl.
  - split; [apply update_rows_untouched; assumption|].
    intros _. exists i, t, (apply_patch p (clock e) t).
    split; [exact Hid|]. split; [exact Hfind|]. split; [reflexivity|].
    split; [|apply apply_patch_as_sent; exact Hsent].
    rewrite find_by_id_update_rows, Hfind.
    apply find_by_id_Some in Hfind. destruct Hfind as [_ ->].
    rewrite str_eqb_refl. reflexivity.
  - split; [apply Forall2_untouched_refl | contradiction].
Qed.

Lemma PATCH_changes_only_sent_fields_witness :
  let b := VObj [(lit "id", VStr (lit "c0")); (lit "completed", VBool true)] in
  let req := {| json_body := Some b; searchParams := [] |} in
  let e := {| clock := 1000; db_up := true |} in
  let s := {| rows := [mkTodo (lit "c0") (lit "tea") (Some (lit "hot"))
                         false 10 10;
                       mkTodo (lit "c1") (lit "milk") None false 20 20];
              next_seq := 2 |} in
  Forall2 (untouched_where_absent b)
    (rows s) (rows (snd (run (PATCH req) e s)))
  /\
  exists i t t',
    prop b (lit "id") = VStr i /\
    find_by_id i (rows s) = Some t /\
    fst (run (PATCH req) e s) = Return {| status := 200; body := Item t' |} /\
    find_by_id i (rows (snd (run (PATCH req) e s))) = Some t' /\
    updated_as_sent b (clock e) t t'.
Proof.
  intros b req e s.
  destruct (PATCH_changes_only_sent_fields req e s b eq_refl) as [Hframe Hsent].
  split; [exact Hframe|]. apply Hsent.
  split; [exists (lit "c0"); repeat split; discriminate|].
  split; [right; exists true; reflexivity|].
  split; [left; reflexivity|].
  split; [left; reflexivity | reflexivity].
Defined.

(** C4, where the code departs from it.  The create handler rejects a
    blank title, and so does the client before it sends an edit, but the
    update handler trims the title it is sent and stores the result
    without looking at it: after one create and one update, both answered
    with success, the store holds a record whose title is empty. *)
Theorem PATCH_stores_blank_title :
  let create_tea :=
    {| json_body := Some (VObj [(lit "title", VStr (lit "tea"))]);
       searchParams := [] |} in
  let blank_title :=
    {| json_body := Some (VObj [(lit "id", VStr (lit "c0"));
                                (lit "title", VStr (lit "   "))]);
       searchParams := [] |} in
  let s0 := {| rows := []; next_seq := 0 |} in
  let s1 := {| rows := [mkTodo (lit "c0") (lit "tea") None false 10 10];
               next_seq := 1 |} in
  let s2 := {| rows := [mkTodo (lit "c0") [] None false 10 20];
               next_seq := 1 |} in
  run (POST create_tea) {| clock := 10; db_up := true |} s0 =
    (Return {| status := 201;
               body := Item (mkTodo (lit "c0") (lit "tea") None false 10 10) |},
     s1) /\
  run (PATCH blank_title) {| clock := 20; db_up := true |} s1 =
    (Return {| status := 200;
               body := Item (mkTodo (lit "c0") [] None false 10 20) |},
     s2) /\
  reachable s2 /\
  ~ titles_not_blank s2.
Proof.
  intros create_tea blank_title s0 s1 s2.
  split; [reflexivity|]. split; [reflexivity|]. split.
  - exists [(CallPOST create_tea, {| clock := 10; db_up := true |});
             (CallPATCH blank_title, {| clock := 20; db_up := true |})].
    reflexivity.
  - intros H. inversion H as [|t l Ht _]. discriminate Ht.
Qed.

(** Every other path keeps the titles: from a store without blank
    titles, a sequence of requests in which no update sends a blank title
    leads to a store without blank titles. *)
Lemma titles_not_blank_preserved (cs : list (call * env)) (s : store) :
  Forall (fun ce => sends_no_blank_title (fst ce)) cs ->
  titles_not_blank s ->
  titles_not_blank (store_after cs s).
Proof.
  revert s. induction cs as [|[c e] cs IH]; intros s Hcs Hs; simpl;
    [exact Hs|].
  inversion Hcs as [|ce l Hc Hrest]; subst.
  apply IH; [exact Hrest|]. apply titles_not_blank_step; assumption.
Qed.

(** ** Update and delete of an identifier that does not resolve *)

Lemma PATCH_unknown_id (req : request) (e : env) (s : store) (b : value) :
  json_body req = Some b ->
  truthy (prop b (lit "id")) = true ->
  (forall i, prop b (lit "id") = VStr i -> find_by_id i (rows s) = None) ->
  run (PATCH req) e s =
    (Return {| status := 500; body := ErrorBody "Failed to update todo" |}, s).
Proof.
  intros Hb Ht Hi. apply wp_run.
  assert (Hnn := prop_defined_not_nullish b (lit "id")
                   (truthy_not_undefined _ Ht)).
  wp_run_handler; try (split; reflexivity).
  all: exfalso;
    match goal with
    | H : find_by_id ?i _ = Some _ |- _ =>
        rewrite (Hi i) in H by (reflexivity || assumption); discriminate
    end.
Qed.

Lemma DELETE_unknown_id (req : request) (e : env) (s : store) (i : jsstring) :
  searchParams_get (lit "id") (searchParams req) = Some i ->
  i <> [] ->
  find_by_id i (rows s) = None ->
  run (DELETE req) e s =
    (Return {| status := 500; body := ErrorBody "Failed to delete todo" |}, s).
Proof.
  intros Hid Hne Hi. apply truthy_VStr in Hne. apply wp_run. unfold DELETE.
  rewrite Hid. simpl nullable.
  repeat wp_step; try (split; reflexivity).
  all: match goal with H : VStr _ = VStr _ |- _ => injection H as <- end.
  all: congruence.
Qed.

(** A delete that was answered with 200 found its target and removed it. *)
(** C5.  An update or a delete that targets an identifier which does not
    resolve to a record is answered with status 500 and the operation's
    generic message ("Failed to update todo", "Failed to delete todo"),
    the same answer as for any other store failure, and the store is left
    as it was.  This includes the identifier of a record that a delete
    removed earlier: whatever requests were handled since, it resolves to
    nothing. *)
Theorem unknown_id_is_server_fault (s : store) :
  (forall req e b,
     json_body req = Some b ->
     truthy (prop b (lit "id")) = true ->
     (forall i, prop b (lit "id") = VStr i -> find_by_id i (rows s) = None) ->
     run (PATCH req) e s =
       (Return {| status := 500; body := ErrorBody "Failed to update todo" |},
        s)) /\
  (forall req e i,
     searchParams_get (lit "id") (searchParams req) = Some i ->
     i <> [] ->
     find_by_id i (rows s) = None ->
     run (DELETE req) e s =
       (Return {| status := 500; body := ErrorBody "Failed to delete todo" |},
        s)) /\
  (forall s0 req0 e0 i,
     reachable s0 ->
     searchParams_get (lit "id") (searchParams req0) = Some i ->
     run (DELETE req0) e0 s0 =
       (Return {| status := 200;
                  body := MessageBody "Todo deleted successfully" |}, s) ->
     forall s', reachable_from s s' ->
     (forall req e b,
        json_body req = Some b ->
        prop b (lit "id") = VStr i ->
        run (PATCH req) e s' =
          (Return {| status := 500;
                     body := ErrorBody "Failed to update todo" |}, s')) /\
     (forall req e,
        searchParams_get (lit "id") (searchParams req) = Some i ->
        run (DELETE req) e s' =
          (Return {| status := 500;
                     body := ErrorBody "Failed to delete todo" |}, s'))).
Proof.
  split; [intros; apply PATCH_unknown_id with b; assumption|].
  split; [intros; apply DELETE_unknown_id with i; assumption|].
  intros s0 req0 e0 i Hreach Hid Hrun s' Hs'.
  destruct (DELETE_success _ _ _ _ _ Hid Hrun) as (Hne & [t Ht] & ->).
  assert (retired i s') as [Hnone _].
  { apply (retired_reachable_from i _ _ Hs'). split; simpl.
    - apply find_by_id_delete_rows_same.
    - apply find_by_id_Some in Ht. destruct Ht as [Hin <-].
      pose proof (reachable_ids_issued s0 Hreach) as Hissued.
      unfold ids_issued in Hissued. rewrite Forall_forall in Hissued.
      exact (Hissued t Hin). }
  split.
  - intros req e b Hb Hi. apply PATCH_unknown_id with b; [exact Hb | |].
    + rewrite Hi. apply truthy_VStr. exact Hne.
    + intros j Hj. rewrite Hi in Hj. injection Hj as <-. exact Hnone.
  - intros req e Hi. apply DELETE_unknown_id with i; assumption.
Qed.

Lemma unknown_id_is_server_fault_witness :
  let s := {| rows := []; next_seq := 1 |} in
  let s' := {| rows := [mkTodo (lit "c1") (lit "milk") None false 30 30];
               next_seq := 2 |} in
  let e := {| clock := 1000; db_up := true |} in
  let patch_c0 :=
    {| json_body := Some (VObj [(lit "id", VStr (lit "c0"));
                                (lit "completed", VBool true)]);
       searchParams := [] |} in
  let delete_c0 :=
    {| json_body := None; searchParams := [(lit "id", lit "c0")] |} in
  (run (PATCH patch_c0) e s =
     (Return {| status := 500; body := ErrorBody "Failed to update todo" |}, s)
   /\
   run (DELETE delete_c0) e s =
     (Return {| status := 500; body := ErrorBody "Failed to delete todo" |}, s))
  /\
  (run (PATCH patch_c0) e s' =
     (Return {| status := 500; body := ErrorBody "Failed to update todo" |},
      s')
   /\
   run (DELETE delete_c0) e s' =
     (Return {| status := 500; body := ErrorBody "Failed to delete todo" |},
      s')).
Proof.
  intros s s' e patch_c0 delete_c0.
  destruct (unknown_id_is_server_fault s) as (Hpatch & Hdelete & Hagain).
  split; [split|].
  - apply (Hpatch patch_c0 e
             (VObj [(lit "id", VStr (lit "c0"));
                    (lit "completed", VBool true)]));
      [reflexivity | reflexivity | intros i _; reflexivity].
  - apply (Hdelete delete_c0 e (lit "c0"));
      [reflexivity | discriminate | reflexivity].
  - pose (create_tea :=
            {| json_body := Some (VObj [(lit "title", VStr (lit "tea"))]);
               searchParams := [] |}).
    pose (create_milk :=
            {| json_body := Some (VObj [(lit "title", VStr (lit "milk"))]);
               searchParams := [] |}).
    destruct (Hagain
                {| rows := [mkTodo (lit "c0") (lit "tea") None false 10 10];
                   next_seq := 1 |}
                delete_c0 {| clock := 20; db_up := true |} (lit "c0"))
      with (s' := s') as [Hp Hd].
    + exists [(CallPOST create_tea, {| clock := 10; db_up := true |})].
      reflexivity.
    + reflexivity.
    + reflexivity.
    + exists [(CallPOST create_milk, {| clock := 30; db_up := true |})].
      reflexivity.
    + split.
      * apply (Hp patch_c0 e
                 (VObj [(lit "id", VStr (lit "c0"));
                        (lit "completed", VBool true)])); reflexivity.
      * apply (Hd delete_c0 e). reflexivity.
Defined.

(** C7, amended.  An update whose parsed body is a JSON value other
    than [null] and has no [id], and a delete whose query string has no
    [id], are answered with status 400 and the message "Todo ID is
    required"; the store is left as it was, whatever its state and
    whether or not it can be reached.  (An update with the body [null]
    has no [id] either, and is answered with the 500 of the catch-all:
    see the lemma after the next.) *)
Theorem missing_id_rejected (req : request) (e : env) (s : store) :
  (forall b,
     json_body req = Some b -> nullish b = false ->
     prop b (lit "id") = VUndefined ->
     run (PATCH req) e s =
       (Return {| status := 400; body := ErrorBody "Todo ID is required" |},
        s)) /\
  (searchParams_get (lit "id") (searchParams req) = None ->
   run (DELETE req) e s =
     (Return {| status := 400; body := ErrorBody "Todo ID is required" |},
      s)).
Proof.
  split.
  - intros b Hb Hnn Hid. apply wp_run. wp_run_handler. auto.
  - intros Hid. apply wp_run. unfold DELETE. rewrite Hid. simpl nullable.
    repeat wp_step. auto.
Qed.

Lemma missing_id_rejected_witness :
  let req := {| json_body := Some (VObj [(lit "completed", VBool true)]);
                searchParams := [(lit "ID", lit "c0")] |} in
  let e := {| clock := 1000; db_up := false |} in
  let s := {| rows := [mkTodo (lit "c0") (lit "tea") None false 10 10];
              next_seq := 1 |} in
  run (PATCH req) e s =
    (Return {| status := 400; body := ErrorBody "Todo ID is required" |}, s)
  /\
  run (DELETE req) e s =
    (Return {| status := 400; body := ErrorBody "Todo ID is required" |}, s).
Proof.
  intros req e s.
  destruct (missing_id_rejected req e s) as [Hpatch Hdelete].
  split.
  - apply (Hpatch (VObj [(lit "completed", VBool true)])); reflexivity.
  - apply Hdelete. reflexivity.
Defined.

(** C7 as it was stated fails for an update with the body [null]: the
    [id] is absent from it, the destructuring of line 55 throws inside
    the [try], and the answer is the 500 with "Failed to update todo",
    not the 400. *)
Lemma missing_id_rejected_counterexample :
  let req := {| json_body := Some VNull; searchParams := [] |} in
  let e := {| clock := 1000; db_up := true |} in
  let s := {| rows := [mkTodo (lit "c0") (lit "tea") None false 10 10];
              next_seq := 1 |} in
  prop VNull (lit "id") = VUndefined /\
  run (PATCH req) e s =
    (Return {| status := 500; body := ErrorBody "Failed to update todo" |},
     s) /\
  run (PATCH req) e s <>
    (Return {| status := 400; body := ErrorBody "Todo ID is required" |}, s).
Proof.
  intros req e s.
  assert (run (PATCH req) e s =
          (Return {| status := 500;
                     body := ErrorBody "Failed to update todo" |}, s)) as H
    by reflexivity.
  split; [reflexivity|]. split; [exact H|].
  rewrite H. discriminate.
Qed.

(** ** Bodies that do not parse *)

(** C8.  A create or update request whose body does not parse as JSON is
    answered with the operation's status 500 and generic message, not
    with a 400, and the store is left as it was. *)
Theorem unparseable_body_is_server_fault (req : request) (e : env) (s : store) :
  json_body req = None ->
  run (POST req) e s =
    (Return {| status := 500; body := ErrorBody "Failed to create todo" |}, s)
  /\
  run (PATCH req) e s =
    (Return {| status := 500; body := ErrorBody "Failed to update todo" |}, s).
Proof.
  intros Hb. split; apply wp_run; wp_run_handler; auto.
Qed.

Lemma unparseable_body_is_server_fault_witness :
  let req := {| json_body := None; searchParams := [] |} in
  let e := {| clock := 1000; db_up := true |} in
  let s := {| rows := [mkTodo (lit "c0") (lit "tea") None false 10 10];
              next_seq := 1 |} in
  run (POST req) e s =
    (Return {| status := 500; body := ErrorBody "Failed to create todo" |}, s)
  /\
  run (PATCH req) e s =
    (Return {| status := 500; body := ErrorBody "Failed to update todo" |}, s).
Proof.
  intros req e s. apply (unparseable_body_is_server_fault req e s).
  reflexivity.
Defined.

(** A body that parses to [null] is not an object to take fields from:
    the destructuring throws, and the answer is the 500 of the catch-all
    rather than a 400. *)
Remark null_body_is_server_fault (req : request) (e : env) (s : store) :
  json_body req = Some VNull ->
  run (POST req) e s =
    (Return {| status := 500; body := ErrorBody "Failed to create todo" |}, s)
  /\
  run (PATCH req) e s =
    (Return {| status := 500; body := ErrorBody "Failed to update todo" |}, s).
Proof.
  intros Hb. split; apply wp_run; wp_run_handler; auto.
Qed.

(** So is a [description] that is neither a string nor [null]: its
    [trim] cannot be called. *)
Remark POST_description_not_a_string (req : request) (e : env) (s : store)
    (b : value) :
  json_body req = Some b ->
  nullish b = false ->
  ~ description_well_typed (prop b (lit "description")) ->
  run (POST req) e s =
    (Return {| status := 400; body := ErrorBody "Title is required" |}, s) \/
  run (POST req) e s =
    (Return {| status := 500; body := ErrorBody "Failed to create todo" |}, s).
Proof.
  intros Hb Hnn Hd.
  cut (wp (POST req)
         (fun o s' =>
            (o, s') =
              (Return {| status := 400;
                         body := ErrorBody "Title is required" |}, s) \/
            (o, s') =
              (Return {| status := 500;
                         body := ErrorBody "Failed to create todo" |}, s)) e s).
  { unfold wp. destruct (run (POST req) e s). exact (fun H => H). }
  wp_run_handler; auto.
  all: exfalso; apply Hd; unfold description_well_typed.
  all: try match goal with
           | H : nullish _ = true |- _ =>
               destruct (nullish_true _ H); auto
           end.
  all: eauto.
Qed.

(** ** List *)

Lemma insert_desc_perm (t : Todo) (l : list Todo) :
  Permutation (insert_desc t l) (t :: l).
Proof.
  induction l as [|u l IH]; simpl; [reflexivity|].
  destruct (createdAt u <=? createdAt t); [reflexivity|].
  rewrite IH. apply perm_swap.
Qed.

(** Ordering loses and adds nothing. *)
Lemma order_by_createdAt_desc_perm (l : list Todo) :
  Permutation (order_by_createdAt_desc l) l.
Proof.
  unfold order_by_createdAt_desc.
  induction l as [|t l IH]; simpl; [reflexivity|].
  rewrite insert_desc_perm, IH. reflexivity.
Qed.

Lemma insert_desc_sorted (t : Todo) (l : list Todo) :
  newest_first l -> newest_first (insert_desc t l).
Proof.
  unfold newest_first. induction 1 as [|u l Hl IH Hu]; simpl.
  - repeat constructor.
  - destruct (createdAt u <=? createdAt t) eqn:Hcmp.
    + apply Z.leb_le in Hcmp. constructor; [constructor; assumption|].
      constructor; [exact Hcmp|].
      eapply Forall_impl; [|exact Hu]. simpl. intros v Hv. lia.
    + apply Z.leb_gt in Hcmp. constructor; [exact IH|].
      eapply Permutation_Forall; [symmetry; apply insert_desc_perm|].
      constructor; [lia | exact Hu].
Qed.

Lemma order_by_createdAt_desc_sorted (l : list Todo) :
  newest_first (order_by_createdAt_desc l).
Proof.
  unfold order_by_createdAt_desc.
  induction l as [|t l IH]; simpl; [constructor|].
  apply insert_desc_sorted. exact IH.
Qed.

(** In a list that is newest first, a record created strictly later
    comes before one created earlier. *)
Lemma newest_first_before (l : list Todo) (a b : Todo) :
  newest_first l -> In a l -> In b l ->
  createdAt a < createdAt b -> before b a l.
Proof.
  unfold newest_first, before.
  induction 1 as [|x l Hl IH Hx]; intros Ha Hb Hlt; [destruct Ha|].
  rewrite Forall_forall in Hx.
  destruct Hb as [<-|Hb].
  - destruct Ha as [->|Ha]; [lia|].
    apply in_split in Ha. destruct Ha as (l2 & l3 & ->).
    exists [], l2, l3. reflexivity.
  - destruct Ha as [->|Ha].
    + specialize (Hx b Hb). simpl in Hx. lia.
    + destruct (IH Ha Hb Hlt) as (l1 & l2 & l3 & ->).
      exists (x :: l1), l2, l3. reflexivity.
Qed.

(** C6.  While the store can be reached, the list operation is answered
    with status 200 and every stored Task (the answer is a permutation of
    the table), ordered by [createdAt] descending; it does not change the
    store.  In particular, when Task A was created and then Task B, at a
    later clock reading, the list has B before A. *)
Theorem GET_lists_newest_first (e : env) (s : store) :
  db_up e = true ->
  exists l,
    run GET e s = (Return {| status := 200; body := Todos l |}, s) /\
    Permutation l (rows s) /\
    newest_first l /\
    (forall s0 s1 reqA eA a reqB eB b,
       run (POST reqA) eA s0 =
         (Return {| status := 201; body := Item a |}, s1) ->
       run (POST reqB) eB s1 =
         (Return {| status := 201; body := Item b |}, s) ->
       clock eA < clock eB ->
       before b a l).
Proof.
  intros Hup. exists (order_by_createdAt_desc (rows s)).
  split; [apply GET_run; exact Hup|].
  split; [apply order_by_createdAt_desc_perm|].
  split; [apply order_by_createdAt_desc_sorted|].
  intros s0 s1 reqA eA a reqB eB b HA HB Hlt.
  apply POST_success in HA. destruct HA as [HrowsA HcA].
  apply POST_success in HB. destruct HB as [HrowsB HcB].
  apply newest_first_before.
  - apply order_by_createdAt_desc_sorted.
  - apply (Permutation_in _ (Permutation_sym (order_by_createdAt_desc_perm _))).
    rewrite HrowsB, HrowsA, !in_app_iff. simpl. auto.
  - apply (Permutation_in _ (Permutation_sym (order_by_createdAt_desc_perm _))).
    rewrite HrowsB, in_app_iff. simpl. auto.
  - lia.
Qed.

Lemma GET_lists_newest_first_witness :
  let create (t : string) :=
    {| json_body := Some (VObj [(lit "title", VStr (lit t))]);
       searchParams := [] |} in
  let a := mkTodo (lit "c0") (lit "A") None false 10 10 in
  let b := mkTodo (lit "c1") (lit "B") None false 20 20 in
  let s := {| rows := [a; b]; next_seq := 2 |} in
  exists l,
    run GET {| clock := 30; db_up := true |} s =
      (Return {| status := 200; body := Todos l |}, s) /\
    before b a l.
Proof.
  intros create a b s.
  destruct (GET_lists_newest_first {| clock := 30; db_up := true |} s eq_refl)
    as (l & Hrun & _ & _ & Horder).
  exists l. split; [exact Hrun|].
  apply (Horder {| rows := []; next_seq := 0 |}
           {| rows := [a]; next_seq := 1 |}
           (create "A"%string) {| clock := 10; db_up := true |} a
           (create "B"%string) {| clock := 20; db_up := true |} b);
    reflexivity.
Defined.

(** With one clock reading for both requests the two records tie on
    [createdAt], and the list keeps them in insertion order. *)
Remark GET_tie_keeps_insertion_order :
  let a := mkTodo (lit "c0") (lit "A") None false 10 10 in
  let b := mkTodo (lit "c1") (lit "B") None false 10 10 in
  run GET {| clock := 30; db_up := true |} {| rows := [a; b]; next_seq := 2 |}
  = (Return {| status := 200; body := Todos [a; b] |},
     {| rows := [a; b]; next_seq := 2 |}).
Proof. reflexivity. Qed.

(** ** Every handler answers *)

(** C10.  Each of the four handlers is total: for every request, in every
    environment and store state, it returns a response (no throw gets
    past its catch-all), and that response is one of the documented ones:
    200 or 201 on success, 400 with the missing-field message, 500 with
    the operation's generic message. *)
Theorem handlers_total (req : request) (e : env) (s : store) :
  (exists r s', run GET e s = (Return r, s') /\ GET_documented r) /\
  (exists r s', run (POST req) e s = (Return r, s') /\ POST_documented r) /\
  (exists r s', run (PATCH req) e s = (Return r, s') /\ PATCH_documented r) /\
  (exists r s', run (DELETE req) e s = (Return r, s') /\ DELETE_documented r).
Proof.
  repeat split.
  - apply try_catch_returns; [|right; reflexivity].
    repeat returns_step. left. eexists. reflexivity.
  - apply try_catch_returns; [|right; right; reflexivity].
    repeat returns_step.
    + right; left; reflexivity.
    + left. eexists. reflexivity.
  - apply try_catch_returns; [|right; right; reflexivity].
    repeat returns_step.
    + right; left; reflexivity.
    + left. eexists. reflexivity.
  - apply try_catch_returns; [|right; right; reflexivity].
    repeat returns_step.
    + right; left; reflexivity.
    + left. reflexivity.
Qed.


(** * Further properties *)

(** ** Trimming twice *)

Lemma trim_start_clean (s : jsstring) : starts_clean (trim_start s).
Proof.
  induction s as [|c s IH]; simpl; [exact I|].
  destruct (is_white_space c) eqn:Hc; [exact IH | exact Hc].
Qed.

Lemma trim_start_of_clean (s : jsstring) :
  starts_clean s -> trim_start s = s.
Proof. destruct s as [|c s]; simpl; [reflexivity|]. intros ->. reflexivity. Qed.

Lemma trim_start_snoc (l : jsstring) (c : N) :
  is_white_space c = false ->
  exists l', trim_start (l ++ [c]) = l' ++ [c].
Proof.
  intros Hc. induction l as [|x l IH]; simpl.
  - rewrite Hc. exists []. reflexivity.
  - destruct (is_white_space x); [exact IH|]. exists (x :: l). reflexivity.
Qed.

Lemma trim_end_clean (s : jsstring) :
  starts_clean s -> starts_clean (trim_end s).
Proof.
  unfold trim_end. destruct s as [|c s]; simpl; [intros _; exact I|].
  intros Hc. destruct (trim_start_snoc (rev s) c Hc) as [l' ->].
  rewrite rev_app_distr. simpl. exact Hc.
Qed.

(** [s.trim().trim()] is [s.trim()]. *)
Lemma trim_idem (s : jsstring) : trim (trim s) = trim s.
Proof.
  assert (starts_clean (trim s)) as Hstart.
  { unfold trim. apply trim_end_clean, trim_start_clean. }
  unfold trim at 1. rewrite (trim_start_of_clean _ Hstart).
  unfold trim_end at 1.
  rewrite trim_start_of_clean; [apply rev_involutive|].
  unfold trim, trim_end. rewrite rev_involutive. apply trim_start_clean.
Qed.

(** ** Ordering, updates and deletions *)

Lemma insert_desc_map (f : Todo -> Todo) (t : Todo) (l : list Todo) :
  (forall u, createdAt (f u) = createdAt u) ->
  insert_desc (f t) (map f l) = map f (insert_desc t l).
Proof.
  intros Hf. induction l as [|u l IH]; simpl; [reflexivity|].
  rewrite !Hf. destruct (createdAt u <=? createdAt t); simpl;
    [reflexivity | rewrite IH; reflexivity].
Qed.

(** A change that keeps [createdAt] can be made before or after the
    ordering. *)
Lemma order_by_createdAt_desc_map (f : Todo -> Todo) (l : list Todo) :
  (forall u, createdAt (f u) = createdAt u) ->
  order_by_createdAt_desc (map f l) = map f (order_by_createdAt_desc l).
Proof.
  intros Hf. unfold order_by_createdAt_desc.
  induction l as [|t l IH]; simpl; [reflexivity|].
  rewrite IH. apply insert_desc_map. exact Hf.
Qed.

Lemma insert_desc_filter (g : Todo -> bool) (t : Todo) (l : list Todo) :
  newest_first l ->
  filter g (insert_desc t l) =
    if g t then insert_desc t (filter g l) else filter g l.
Proof.
  unfold newest_first. induction 1 as [|u l Hl IH Hu]; simpl.
  - destruct (g t); reflexivity.
  - destruct (createdAt u <=? createdAt t) eqn:Hcmp; simpl.
    + destruct (g t) eqn:Hgt; [|reflexivity].
      destruct (g u) eqn:Hgu; simpl; [rewrite Hcmp; reflexivity|].
      clear IH. induction l as [|v l IHl]; simpl; [reflexivity|].
      inversion Hu as [|? ? Hv Hu']; subst. inversion Hl; subst.
      destruct (g v); simpl.
      * apply Z.leb_le in Hcmp.
        assert ((createdAt v <=? createdAt t) = true) as ->
          by (apply Z.leb_le; lia).
        reflexivity.
      * apply IHl; assumption.
    + rewrite IH. destruct (g u) eqn:Hgu; simpl.
      * destruct (g t); [rewrite Hcmp|]; reflexivity.
      * reflexivity.
Qed.

(** Removing records before or after the ordering gives the same list. *)
Lemma order_by_createdAt_desc_filter (g : Todo -> bool) (l : list Todo) :
  order_by_createdAt_desc (filter g l) = filter g (order_by_createdAt_desc l).
Proof.
  induction l as [|t l IH]; simpl; [reflexivity|].
  change (order_by_createdAt_desc (t :: l))
    with (insert_desc t (order_by_createdAt_desc l)).
  rewrite insert_desc_filter by apply order_by_createdAt_desc_sorted.
  destruct (g t); [|exact IH].
  change (order_by_createdAt_desc (t :: filter g l))
    with (insert_desc t (order_by_createdAt_desc (filter g l))).
  rewrite IH. reflexivity.
Qed.

(** A record created later than all the others is listed first. *)
Lemma order_by_createdAt_desc_newest (l : list Todo) (r : Todo) :
  Forall (fun t => createdAt t < createdAt r) l ->
  order_by_createdAt_desc (l ++ [r]) = r :: order_by_createdAt_desc l.
Proof.
  unfold order_by_createdAt_desc. induction 1 as [|t l Ht _ IH]; simpl.
  - reflexivity.
  - rewrite IH. simpl.
    assert ((createdAt r <=? createdAt t) = false) as ->
      by (apply Z.leb_gt; exact Ht).
    reflexivity.
Qed.

(** ** Identifiers are unique *)

Lemma ids_unique_step (c : call) (e : env) (s s' : store) :
  store_step c e s s' -> ids_issued s -> ids_unique s -> ids_unique s'.
Proof.
  unfold ids_unique, ids_issued. intros Hstep Hissued Hs.
  destruct Hstep as [|req r _ Hr _ _|req b i p _ _ _ _|req i _ _]; simpl.
  - exact Hs.
  - rewrite map_app. simpl.
    apply NoDup_app; [exact Hs | repeat constructor; intros [] |].
    intros x Hx [<-|[]]. apply in_map_iff in Hx.
    destruct Hx as (t & Ht & Hin). rewrite Forall_forall in Hissued.
    destruct (Hissued t Hin) as (k & Hk & Hid).
    rewrite Hr, Hid in Ht. apply fresh_id_inj in Ht. lia.
  - unfold update_rows. rewrite map_map.
    erewrite map_ext; [exact Hs|]. intros t. simpl.
    destruct (str_eqb (id t) i); reflexivity.
  - unfold delete_rows. clear Hissued.
    induction (rows s) as [|t l IH]; simpl; [constructor|].
    inversion Hs as [|? ? Hnotin Hl]; subst.
    destruct (str_eqb (id t) i); simpl; [auto|].
    constructor; [|auto]. intros Hin. apply Hnotin.
    apply in_map_iff in Hin. destruct Hin as (u & Hu & Hin).
    apply filter_In in Hin. apply in_map_iff. exists u. tauto.
Qed.

Lemma ids_unique_store_after (cs : list (call * env)) (s : store) :
  ids_issued s -> ids_unique s -> ids_unique (store_after cs s).
Proof.
  revert s. induction cs as [|[c e] cs IH]; intros s Hi Hu; simpl; [exact Hu|].
  apply IH.
  - eapply ids_issued_step; [apply handle_store_step | exact Hi].
  - eapply ids_unique_step; [apply handle_store_step | exact Hi | exact Hu].
Qed.

Lemma reachable_ids_unique (s : store) : reachable s -> ids_unique s.
Proof.
  intros [cs <-]. apply ids_unique_store_after; constructor.
Qed.

(** With unique identifiers, the record an identifier resolves to is the
    only one that has it. *)
Lemma ids_unique_find (l : list Todo) (i : jsstring) (t u : Todo) :
  NoDup (map id l) -> find_by_id i l = Some t -> In u l -> id u = i -> u = t.
Proof.
  unfold find_by_id. induction l as [|x l IH]; simpl; [intros _ [=]|].
  intros Hnd Hfind Hin Hid. inversion Hnd as [|? ? Hnotin Hl]; subst.
  destruct (str_eqb (id x) (id u)) eqn:Hx.
  - injection Hfind as <-. destruct Hin as [->|Hin]; [reflexivity|].
    apply str_eqb_eq in Hx. exfalso. apply Hnotin. rewrite Hx.
    apply in_map. exact Hin.
  - destruct Hin as [->|Hin]; [rewrite str_eqb_refl in Hx; discriminate|].
    apply IH; auto.
Qed.

(** ** Create and delete, case by case *)

Lemma check_data_create (t : jsstring) (d : value) :
  check_data [(lit "title", VStr t); (lit "description", d)] =
    match check_description d with
    | Some pd =>
        Some {| p_completed := None; p_title := Some t; p_description := pd |}
    | None => None
    end.
Proof. unfold check_data. cbn. destruct (check_description d); reflexivity. Qed.

Lemma check_description_or_null (x : jsstring) :
  check_description (or_else (VStr x) VNull) =
    Some (Some (match x with [] => None | _ => Some x end)).
Proof. destruct x; reflexivity. Qed.

Lemma not_empty_string_trim (x : jsstring) :
  is_empty_string (VStr (trim x)) = false -> trim x <> [].
Proof.
  rewrite is_empty_string_trim. intros H. apply trim_not_nil_iff. exact H.
Qed.

(** Every run of the create handler either carries the request out, or
    answers 400 or 500 and leaves the store as it was; and it carries the
    request out exactly when the request is [creatable]. *)
Lemma POST_spec (req : request) (e : env) (s : store) (b : value) :
  json_body req = Some b ->
  (creatable b e /\
   exists r,
     created_as_sent b e s r /\
     run (POST req) e s =
       (Return {| status := 201; body := Item r |},
        {| rows := rows s ++ [r]; next_seq := N.succ (next_seq s) |}))
  \/
  (~ creatable b e /\
   exists r,
     run (POST req) e s = (Return r, s) /\
     (r = {| status := 400; body := ErrorBody "Title is required" |} \/
      r = {| status := 500; body := ErrorBody "Failed to create todo" |})).
Proof.
  intros Hb.
  cut (wp (POST req)
         (fun o s' =>
            (creatable b e /\
             exists r,
               created_as_sent b e s r /\
               (o, s') =
               (Return {| status := 201; body := Item r |},
                {| rows := rows s ++ [r];
                   next_seq := N.succ (next_seq s) |}))
            \/
            (~ creatable b e /\
             exists r,
               (o, s') = (Return r, s) /\
               (r = {| status := 400;
                       body := ErrorBody "Title is required" |} \/
                r = {| status := 500;
                       body := ErrorBody "Failed to create todo" |}))) e s).
  { unfold wp. destruct (run (POST req) e s). exact (fun H => H). }
  wp_run_handler.
  all: try solve
    [ right; split;
      [ intros ((t & Ht & Hne) & Hd & Hup)
      | eexists; split; [reflexivity | auto] ];
      first
        [ congruence
        | destruct Hd as [Hd|[Hd|[d Hd]]]; congruence
        | destruct b; discriminate
        | rewrite Ht in *; destruct t; [apply Hne; reflexivity | discriminate]
        | match goal with
          | H : is_empty_string (VStr (trim _)) = true |- _ =>
              rewrite is_empty_string_trim in H; apply trim_nil_iff in H;
              congruence
          end ] ].
  all: try match goal with
           | H : check_data _ = _ |- _ =>
               rewrite check_data_create, check_description_or_null in H;
               first [discriminate H | injection H as <- <- <-]
           end.
  all: left; split;
    [ split; [eexists; split; [eassumption | apply not_empty_string_trim;
                                              assumption]|];
      split; [|assumption]; unfold description_well_typed;
      try match goal with
          | H : nullish _ = true |- _ => destruct (nullish_true _ H); auto
          end; eauto
    | eexists; split; [|reflexivity];
      unfold created_as_sent; simpl;
      split; [reflexivity|]; split; [eauto|];
      split; [|auto] ].
  - destruct (nullish_true _ Heqb3) as [H|H]; rewrite H; auto.
  - match goal with
    | H : prop b (lit "description") = VStr ?x |- _ =>
        destruct (trim x) as [|c y] eqn:Hx; simpl;
        [ right; right; exists x; auto
        | exists x; rewrite Hx; repeat split; [exact H | discriminate] ]
    end.
Qed.

(** ** The delete handler, case by case *)

Lemma find_by_id_delete_rows_other (i j : jsstring) (l : list Todo) :
  i <> j -> find_by_id i (delete_rows j l) = find_by_id i l.
Proof.
  intros Hne. unfold find_by_id, delete_rows.
  induction l as [|t l IH]; simpl; [reflexivity|].
  destruct (str_eqb (id t) j) eqn:Hj; simpl.
  - apply str_eqb_eq in Hj.
    destruct (str_eqb (id t) i) eqn:Hi; [|exact IH].
    apply str_eqb_eq in Hi. congruence.
  - destruct (str_eqb (id t) i); [reflexivity | exact IH].
Qed.

(** X1.  The delete handler answers 400 exactly when the [id] parameter
    is absent or empty, 200 when the identifier resolves and the store
    can be reached, and 500 otherwise.  Only the 200 changes the store:
    the records of that identifier are gone, the identifier resolves to
    nothing, and every other identifier resolves as before. *)
Theorem DELETE_answers (req : request) (e : env) (s : store) :
  (searchParams_get (lit "id") (searchParams req) = None \/
   searchParams_get (lit "id") (searchParams req) = Some [] ->
   run (DELETE req) e s =
     (Return {| status := 400; body := ErrorBody "Todo ID is required" |},
      s)) /\
  (forall i t,
     searchParams_get (lit "id") (searchParams req) = Some i ->
     i <> [] -> db_up e = true -> find_by_id i (rows s) = Some t ->
     run (DELETE req) e s =
       (Return {| status := 200;
                  body := MessageBody "Todo deleted successfully" |},
        {| rows := delete_rows i (rows s); next_seq := next_seq s |}) /\
     find_by_id i (delete_rows i (rows s)) = None /\
     forall j, j <> i ->
       find_by_id j (delete_rows i (rows s)) = find_by_id j (rows s)) /\
  (forall i,
     searchParams_get (lit "id") (searchParams req) = Some i ->
     i <> [] -> db_up e = false \/ find_by_id i (rows s) = None ->
     run (DELETE req) e s =
       (Return {| status := 500; body := ErrorBody "Failed to delete todo" |},
        s)).
Proof.
  split; [|split].
  - intros [Hid|Hid]; apply wp_run; unfold DELETE; rewrite Hid;
      simpl nullable; repeat wp_step; auto.
  - intros i t Hid Hne Hup Hfind. apply truthy_VStr in Hne.
    split; [|split].
    + apply wp_run. unfold DELETE. rewrite Hid. simpl nullable.
      repeat wp_step; auto.
    + apply find_by_id_delete_rows_same.
    + intros j Hj. apply find_by_id_delete_rows_other. exact Hj.
  - intros i Hid Hne Hfail. apply truthy_VStr in Hne.
    apply wp_run. unfold DELETE. rewrite Hid. simpl nullable.
    destruct Hfail as [Hdown|Hnone]; repeat wp_step; auto.
Qed.

Lemma DELETE_answers_witness :
  let gone := mkTodo (lit "c0") (lit "tea") None false 10 10 in
  let kept := mkTodo (lit "c1") (lit "milk") None true 20 20 in
  let s := {| rows := [gone; kept]; next_seq := 2 |} in
  let e := {| clock := 30; db_up := true |} in
  let req (q : list (jsstring * jsstring)) :=
    {| json_body := None; searchParams := q |} in
  run (DELETE (req [(lit "id", [])])) e s =
    (Return {| status := 400; body := ErrorBody "Todo ID is required" |}, s)
  /\
  run (DELETE (req [(lit "id", lit "c0")])) e s =
    (Return {| status := 200;
               body := MessageBody "Todo deleted successfully" |},
     {| rows := [kept]; next_seq := 2 |})
  /\
  run (DELETE (req [(lit "id", lit "c7")])) e s =
    (Return {| status := 500; body := ErrorBody "Failed to delete todo" |}, s).
Proof.
  intros gone kept s e req. split; [|split].
  - apply (proj1 (DELETE_answers (req [(lit "id", [])]) e s)).
    right. reflexivity.
  - apply (proj1 (proj2 (DELETE_answers (req [(lit "id", lit "c0")]) e s))
             (lit "c0") gone); [reflexivity | discriminate | reflexivity
                               | reflexivity].
  - apply (proj2 (proj2 (DELETE_answers (req [(lit "id", lit "c7")]) e s))
             (lit "c7")); [reflexivity | discriminate | right; reflexivity].
Defined.

(** ** A store that cannot be reached *)

(** X2.  While the store cannot be reached, no handler changes it and
    none answers with a success status: the list handler answers 500,
    the other three 400 or 500. *)
Theorem unreachable_store_untouched (c : call) (e : env) (s : store) :
  db_up e = false ->
  exists r,
    run (handle c) e s = (Return r, s) /\
    (status r = 400 \/ status r = 500) /\
    (c = CallGET -> status r = 500).
Proof.
  intros Hdown.
  cut (wp (handle c)
         (fun o s' =>
            exists r, (o, s') = (Return r, s) /\
                      (status r = 400 \/ status r = 500) /\
                      (c = CallGET -> status r = 500)) e s).
  { unfold wp. destruct (run (handle c) e s). exact (fun H => H). }
  destruct c as [|req|req|req]; simpl handle; wp_run_handler;
    eexists; (split; [reflexivity|]); simpl; split; auto; discriminate.
Qed.

Lemma unreachable_store_untouched_witness :
  let s := {| rows := [mkTodo (lit "c0") (lit "tea") None false 10 10];
              next_seq := 1 |} in
  let e := {| clock := 30; db_up := false |} in
  let c := CallPOST {| json_body := Some (VObj [(lit "title", VStr (lit "a"))]);
                       searchParams := [] |} in
  exists r,
    run (handle c) e s = (Return r, s) /\
    (status r = 400 \/ status r = 500) /\
    (c = CallGET -> status r = 500).
Proof.
  intros s e c. apply (unreachable_store_untouched c e s). reflexivity.
Defined.

(** ** What is stored is normalized *)

Lemma POST_unparseable (req : request) (e : env) (s : store) :
  json_body req = None ->
  run (POST req) e s =
    (Return {| status := 500; body := ErrorBody "Failed to create todo" |}, s).
Proof. intros Hb. apply wp_run. wp_run_handler. auto. Qed.

Lemma created_normalized (b : value) (e : env) (s : store) (r : Todo) :
  created_as_sent b e s r -> normalized r.
Proof.
  intros (_ & (t & _ & Ht) & Hd & _). split.
  - rewrite Ht. apply trim_idem.
  - unfold created_description in Hd.
    destruct (description r) as [x|]; [|exact I].
    destruct Hd as (y & _ & -> & Hne). split; [apply trim_idem | exact Hne].
Qed.

Lemma apply_patch_normalized (b : value) (p : patch) (now : Z) (t : Todo) :
  sent_patch b p -> normalized t -> normalized (apply_patch p now t).
Proof.
  intros (_ & Ht & Hd) [Htitle Hdesc]. split; simpl.
  - unfold sent_title in Ht. destruct (p_title p) as [x|]; [|exact Htitle].
    destruct Ht as (y & _ & ->). apply trim_idem.
  - unfold sent_description in Hd.
    destruct (p_description p) as [[x|]|]; [| exact I | exact Hdesc].
    destruct Hd as (y & _ & -> & Hne). split; [apply trim_idem | exact Hne].
Qed.

Lemma store_step_read_or_delete (c : call) (e : env) (s s' : store) :
  store_step c e s s' ->
  match c with
  | CallGET => s' = s
  | CallDELETE _ =>
      s' = s \/
      exists i, s' = {| rows := delete_rows i (rows s);
                        next_seq := next_seq s |}
  | _ => True
  end.
Proof.
  intros H. destruct H as [|? ? ->|? ? ? ? ->|? i ->]; try exact I.
  - destruct c; auto.
  - right. exists i. reflexivity.
Qed.

Lemma normalized_step (c : call) (e : env) (s : store) :
  Forall normalized (rows s) ->
  Forall normalized (rows (snd (run (handle c) e s))).
Proof.
  intros Hs. destruct c as [|req|req|req]; simpl handle.
  - pose proof (store_step_read_or_delete _ _ _ _
                  (handle_store_step CallGET e s)) as H.
    simpl in H. rewrite H. exact Hs.
  - destruct (json_body req) as [b|] eqn:Hb.
    + destruct (POST_spec req e s b Hb)
        as [(_ & r & Hr & ->) | (_ & r & -> & _)]; simpl; [|exact Hs].
      apply Forall_app. split; [exact Hs|].
      constructor; [|constructor]. exact (created_normalized b e s r Hr).
    + rewrite (POST_unparseable req e s Hb). exact Hs.
  - destruct (json_body req) as [b|] eqn:Hb.
    + destruct (PATCH_spec req e s b Hb)
        as [(_ & i & p & t & _ & Hsent & _ & ->) | (_ & r & -> & _)]; simpl;
        [|exact Hs].
      unfold update_rows. apply Forall_map.
      eapply Forall_impl; [|exact Hs]. simpl. intros u Hu.
      destruct (str_eqb (id u) i); [|exact Hu].
      apply (apply_patch_normalized b); assumption.
    + rewrite (PATCH_unparseable req e s Hb). exact Hs.
  - pose proof (store_step_read_or_delete _ _ _ _
                  (handle_store_step (CallDELETE req) e s)) as H.
    simpl in H. destruct H as [-> | [i ->]]; [exact Hs|]. simpl.
    unfold delete_rows. apply Forall_forall. intros t Ht.
    apply filter_In in Ht. destruct Ht as [Ht _].
    rewrite Forall_forall in Hs. auto.
Qed.

(** X3.  In every store that requests lead to from the empty store,
    every title is its own trim, and every description that is there is
    its own trim and is not empty: a blank description is never stored
    as a string. *)
Theorem reachable_normalized (s : store) :
  reachable s -> Forall normalized (rows s).
Proof.
  intros [cs <-].
  assert (forall s0, Forall normalized (rows s0) ->
                     Forall normalized (rows (store_after cs s0))) as H.
  { induction cs as [|[c e] cs IH]; intros s0 Hs0; simpl; [exact Hs0|].
    apply IH. apply normalized_step. exact Hs0. }
  apply H. constructor.
Qed.

Lemma reachable_normalized_witness :
  Forall normalized
    [mkTodo (lit "c0") (lit "buy milk") (Some (lit "2 l")) false 10 20].
Proof.
  apply (reachable_normalized
           {| rows := [mkTodo (lit "c0") (lit "buy milk") (Some (lit "2 l"))
                         false 10 20];
              next_seq := 1 |}).
  exists [(CallPOST (JSON_request
                       (VObj [(lit "title", VStr (lit " buy milk "));
                              (lit "description", VStr (lit "  "))])),
           {| clock := 10; db_up := true |});
          (CallPATCH (JSON_request
                        (VObj [(lit "id", VStr (lit "c0"));
                               (lit "description", VStr (lit " 2 l"))])),
           {| clock := 20; db_up := true |})].
  reflexivity.
Defined.

(** ** What the handlers read of a body *)

(** X4.  The create handler reads [title] and [description] of the body
    and nothing else, and the update handler reads [id], [completed],
    [title] and [description] and nothing else: two bodies that are not
    [null] and agree on these properties get the same answer and leave
    the same store.  No other property that a body carries ([createdAt],
    say) has any effect. *)
Theorem handlers_read_only_their_fields (r1 r2 : request) (b1 b2 : value)
    (e : env) (s : store) :
  json_body r1 = Some b1 -> json_body r2 = Some b2 ->
  nullish b1 = false -> nullish b2 = false ->
  prop b1 (lit "title") = prop b2 (lit "title") ->
  prop b1 (lit "description") = prop b2 (lit "description") ->
  run (POST r1) e s = run (POST r2) e s /\
  (prop b1 (lit "id") = prop b2 (lit "id") ->
   prop b1 (lit "completed") = prop b2 (lit "completed") ->
   run (PATCH r1) e s = run (PATCH r2) e s).
Proof.
  intros Hb1 Hb2 Hn1 Hn2 Ht Hd. split.
  - cbv beta iota zeta delta
      [POST run try_catch bind request_json destructure].
    rewrite Hb1, Hb2. cbv beta iota delta [ret]. rewrite Hn1, Hn2.
    cbv beta iota. rewrite Ht, Hd. reflexivity.
  - intros Hi Hc.
    cbv beta iota zeta delta
      [PATCH run try_catch bind request_json destructure].
    rewrite Hb1, Hb2. cbv beta iota delta [ret]. rewrite Hn1, Hn2.
    cbv beta iota. rewrite Ht, Hd, Hi, Hc. reflexivity.
Qed.

Lemma handlers_read_only_their_fields_witness :
  let b1 := VObj [(lit "id", VStr (lit "c0")); (lit "title", VStr (lit "tea"))] in
  let b2 := VObj [(lit "createdAt", VNum 0);
                  (lit "id", VStr (lit "c0"));
                  (lit "updatedAt", VNum 0);
                  (lit "title", VStr (lit "tea"))] in
  let s := {| rows := [mkTodo (lit "c0") (lit "milk") None false 10 10];
              next_seq := 1 |} in
  let e := {| clock := 30; db_up := true |} in
  run (POST (JSON_request b1)) e s = run (POST (JSON_request b2)) e s /\
  run (PATCH (JSON_request b1)) e s = run (PATCH (JSON_request b2)) e s.
Proof.
  intros b1 b2 s e.
  destruct (handlers_read_only_their_fields
              (JSON_request b1) (JSON_request b2) b1 b2 e s)
    as [Hpost Hpatch]; try reflexivity.
  split; [exact Hpost|]. apply Hpatch; reflexivity.
Defined.

(** ** Repeating an update *)

Lemma sent_patch_fun (b : value) (p q : patch) :
  sent_patch b p -> sent_patch b q -> p = q.
Proof.
  destruct p as [pc pt pd], q as [qc qt qd].
  intros (Hc & Ht & Hd) (Hc' & Ht' & Hd'). simpl in *.
  f_equal.
  - unfold sent_completed in *.
    destruct pc as [x|], qc as [y|]; congruence.
  - unfold sent_title in *.
    destruct pt as [x|], qt as [y|]; trivial.
    + destruct Ht as (u & Hu & ->), Ht' as (v & Hv & ->). congruence.
    + destruct Ht as (u & Hu & _). congruence.
    + destruct Ht' as (u & Hu & _). congruence.
  - unfold sent_description in *.
    destruct pd as [[x|]|], qd as [[y|]|]; trivial;
      repeat match goal with
             | H : exists _, _ |- _ => destruct H as (? & ? & ?)
             | H : _ /\ _ |- _ => destruct H
             | H : _ \/ _ |- _ => destruct H
             end;
      repeat match goal with
             | H1 : prop b ?k = VStr ?u, H2 : prop b ?k = VStr ?v |- _ =>
                 assert (u = v) by congruence; subst u; clear H2
             end;
      subst; try congruence; try contradiction.
Qed.

Lemma apply_patch_twice (p : patch) (now1 now2 : Z) (t : Todo) :
  apply_patch p now2 (apply_patch p now1 t) =
  touched now2 (apply_patch p now1 t).
Proof.
  unfold apply_patch, touched. simpl.
  destruct (p_title p), (p_description p), (p_completed p); reflexivity.
Qed.

Lemma update_rows_twice (i : jsstring) (p : patch) (now1 now2 : Z)
    (l : list Todo) :
  update_rows i p now2 (update_rows i p now1 l) =
  map (fun u => if str_eqb (id u) i then touched now2 u else u)
      (update_rows i p now1 l).
Proof.
  unfold update_rows. rewrite !map_map. apply map_ext. intros u.
  destruct (str_eqb (id u) i) eqn:Hu.
  - change (id (apply_patch p now1 u)) with (id u). rewrite Hu.
    apply apply_patch_twice.
  - rewrite Hu. reflexivity.
Qed.

(** X5.  An update that was answered with 200, sent once more while the
    store can be reached, is answered with 200 again, and changes nothing
    but [updatedAt]: the answer is the record of the first answer with
    the new time, and so is every stored record of that identifier. *)
Theorem PATCH_repeated (req : request) (e1 e2 : env) (s s1 : store)
    (t1 : Todo) :
  run (PATCH req) e1 s =
    (Return {| status := 200; body := Item t1 |}, s1) ->
  db_up e2 = true ->
  run (PATCH req) e2 s1 =
    (Return {| status := 200; body := Item (touched (clock e2) t1) |},
     {| rows := map (fun u => if str_eqb (id u) (id t1)
                              then touched (clock e2) u else u) (rows s1);
        next_seq := next_seq s1 |}).
Proof.
  intros Hrun Hup.
  destruct (json_body req) as [b|] eqn:Hb;
    [|rewrite (PATCH_unparseable req e1 s Hb) in Hrun; discriminate].
  destruct (PATCH_spec req e1 s b Hb)
    as [(Hu & i & p & t & Hi & Hsent & Hfind & Hr)
       | (_ & r & Hr & [-> | ->])];
    rewrite Hr in Hrun; try discriminate.
  injection Hrun as <- <-.
  destruct (find_by_id_Some _ _ _ Hfind) as [_ Hid].
  assert (find_by_id i (update_rows i p (clock e1) (rows s)) =
          Some (apply_patch p (clock e1) t)) as Hfind1.
  { rewrite find_by_id_update_rows, Hfind, Hid, str_eqb_refl. reflexivity. }
  destruct (PATCH_spec req e2
              {| rows := update_rows i p (clock e1) (rows s);
                 next_seq := next_seq s |} b Hb)
    as [(_ & i' & p' & t' & Hi' & Hsent' & Hfind' & Hr')
       | (Hnu & _)].
  - assert (i' = i) by congruence. subst i'.
    rewrite (sent_patch_fun b p' p Hsent' Hsent) in *.
    simpl rows in Hfind'. rewrite Hfind1 in Hfind'.
    injection Hfind' as <-.
    rewrite Hr'. simpl rows. simpl next_seq.
    rewrite apply_patch_twice, update_rows_twice.
    change (id (apply_patch p (clock e1) t)) with (id t).
    rewrite Hid. reflexivity.
  - exfalso. apply Hnu.
    destruct Hu as ((j & Hj & Hne & _) & Hc & Ht & Hd & _).
    assert (j = i) by congruence. subst j.
    split; [|auto].
    exists i. split; [exact Hi|]. split; [exact Hne|].
    simpl rows. rewrite Hfind1. discriminate.
Qed.

Lemma PATCH_repeated_witness :
  let req := JSON_request
               (VObj [(lit "id", VStr (lit "c0"));
                      (lit "completed", VBool true);
                      (lit "title", VStr (lit " tea "))]) in
  let s := {| rows := [mkTodo (lit "c0") (lit "milk") None false 10 10];
              next_seq := 1 |} in
  let t1 := mkTodo (lit "c0") (lit "tea") None true 10 20 in
  let s1 := {| rows := [t1]; next_seq := 1 |} in
  run (PATCH req) {| clock := 30; db_up := true |} s1 =
    (Return {| status := 200; body := Item (touched 30 t1) |},
     {| rows := [touched 30 t1]; next_seq := 1 |}).
Proof.
  intros req s t1 s1.
  apply (PATCH_repeated req {| clock := 20; db_up := true |}
           {| clock := 30; db_up := true |} s s1 t1);
    reflexivity.
Defined.

(** ** The list after a write *)

(** X6.  An update never reorders the list: after an update answered
    with 200, the list that [GET] sends is the list it would have sent
    before, with the answer of the update in the place of the record (or
    records) of that identifier. *)
Theorem list_after_update (req : request) (e e' : env) (s s' : store)
    (t' : Todo) :
  run (PATCH req) e s = (Return {| status := 200; body := Item t' |}, s') ->
  ids_unique s ->
  db_up e' = true ->
  run GET e' s' =
    (Return {| status := 200;
               body := Todos (map (fun u => if str_eqb (id u) (id t')
                                            then t' else u)
                                  (order_by_createdAt_desc (rows s))) |},
     s').
Proof.
  intros Hrun Huniq Hup.
  destruct (json_body req) as [b|] eqn:Hb;
    [|rewrite (PATCH_unparseable req e s Hb) in Hrun; discriminate].
  destruct (PATCH_spec req e s b Hb)
    as [(_ & i & p & t & _ & _ & Hfind & Hr)
       | (_ & r & Hr & [-> | ->])];
    rewrite Hr in Hrun; try discriminate.
  injection Hrun as <- <-.
  rewrite (GET_run e' _ Hup). simpl rows.
  destruct (find_by_id_Some _ _ _ Hfind) as [Hin Hid].
  unfold update_rows.
  rewrite order_by_createdAt_desc_map by (intros u; destruct (str_eqb _ _); reflexivity).
  do 4 f_equal. apply map_ext_in. intros u Hu.
  change (id (apply_patch p (clock e) t)) with (id t). rewrite Hid.
  destruct (str_eqb (id u) i) eqn:Hui; [|reflexivity].
  apply str_eqb_eq in Hui.
  assert (u = t) as ->; [|reflexivity].
  apply (Permutation_in _ (order_by_createdAt_desc_perm (rows s))) in Hu.
  apply (ids_unique_find (rows s) i); assumption.
Qed.

Lemma list_after_update_witness :
  let req := JSON_request
               (VObj [(lit "id", VStr (lit "c0"));
                      (lit "completed", VBool true)]) in
  let a := mkTodo (lit "c0") (lit "milk") None false 10 10 in
  let b := mkTodo (lit "c1") (lit "tea") None false 20 20 in
  let a' := mkTodo (lit "c0") (lit "milk") None true 10 30 in
  let s' := {| rows := [a'; b]; next_seq := 2 |} in
  run GET {| clock := 40; db_up := true |} s' =
    (Return {| status := 200; body := Todos [b; a'] |}, s').
Proof.
  intros req a b a' s'.
  apply (list_after_update req {| clock := 30; db_up := true |}
           {| clock := 40; db_up := true |}
           {| rows := [a; b]; next_seq := 2 |} s' a');
    [reflexivity | | reflexivity].
  unfold ids_unique. simpl.
  constructor; [|constructor; [|constructor]]; simpl.
  - intros [H|[]]. discriminate H.
  - intros [].
Defined.

(** X7.  A delete never reorders the list either: after a delete
    answered with 200, the list that [GET] sends is the list it would
    have sent before without the records of that identifier, the others
    in the order they had. *)
Theorem list_after_delete (req : request) (e e' : env) (s s' : store)
    (i : jsstring) :
  searchParams_get (lit "id") (searchParams req) = Some i ->
  run (DELETE req) e s =
    (Return {| status := 200;
               body := MessageBody "Todo deleted successfully" |}, s') ->
  db_up e' = true ->
  run GET e' s' =
    (Return {| status := 200;
               body := Todos (filter (fun u => negb (str_eqb (id u) i))
                                     (order_by_createdAt_desc (rows s))) |},
     s').
Proof.
  intros Hid Hrun Hup.
  destruct (DELETE_success req e s s' i Hid Hrun) as (_ & _ & ->).
  rewrite (GET_run e' _ Hup). simpl rows. unfold delete_rows.
  rewrite order_by_createdAt_desc_filter. reflexivity.
Qed.

Lemma list_after_delete_witness :
  let a := mkTodo (lit "c0") (lit "milk") None false 10 10 in
  let b := mkTodo (lit "c1") (lit "tea") None false 20 20 in
  let c := mkTodo (lit "c2") (lit "jam") None false 30 30 in
  let s' := {| rows := [a; c]; next_seq := 3 |} in
  run GET {| clock := 50; db_up := true |} s' =
    (Return {| status := 200; body := Todos [c; a] |}, s').
Proof.
  intros a b c s'.
  apply (list_after_delete (DELETE_request (lit "c1"))
           {| clock := 40; db_up := true |}
           {| clock := 50; db_up := true |}
           {| rows := [a; b; c]; next_seq := 3 |} s' (lit "c1"));
    reflexivity.
Defined.

(** ** The component: one event, at most one request *)

Lemma GET_down (e : env) (s : store) :
  db_up e = false ->
  run GET e s =
    (Return {| status := 500; body := ErrorBody "Failed to fetch todos" |}, s).
Proof. intros Hdown. apply wp_run. wp_run_handler. auto. Qed.

Lemma on_event_run (online : bool) (ev : event) (st : TodoList.state)
    (e : env) (s : store) :
  exists st',
    run (on_event online ev st) e s =
      (Return st',
       match request_of_event ev st with
       | Some c => if online then snd (run (handle c) e s) else s
       | None => s
       end).
Proof.
  destruct ev; cbn [on_event request_of_event];
    try (eexists; reflexivity).
  - unfold fetchTodos, fetch, run, try_catch, bind, handle.
    destruct online; [|eexists; reflexivity].
    destruct (GET e s) as [[r|err] s1]; eexists; reflexivity.
  - unfold handleSubmit.
    destruct (negb (truthy (VStr (trim (TodoList.title st)))));
      [eexists; reflexivity|].
    unfold fetch, run, try_catch, bind, handle. cbv zeta.
    cbn [TodoList.title TodoList.description TodoList.todos setLoading].
    destruct online; [|eexists; reflexivity].
    match goal with |- context [POST ?req e s] =>
      destruct (POST req e s) as [[r|err] s1] end;
      [|eexists; reflexivity].
    destruct (response_ok r); [|eexists; reflexivity].
    unfold response_todo. destruct (body r); try (eexists; reflexivity).
    unfold as_array.
    destruct (TodoList.todos st); eexists; reflexivity.
  - unfold toggleComplete, fetch, run, try_catch, bind, handle.
    destruct online; [|eexists; reflexivity].
    match goal with |- context [PATCH ?req e s] =>
      destruct (PATCH req e s) as [[r|err] s1] end;
      [|eexists; reflexivity].
    destruct (response_ok r); [|eexists; reflexivity].
    unfold response_todo. destruct (body r); try (eexists; reflexivity).
    unfold as_array.
    destruct (TodoList.todos st); eexists; reflexivity.
  - unfold deleteTodo.
    destruct (negb confirmed); [eexists; reflexivity|].
    unfold fetch, run, try_catch, bind, handle.
    destruct online; [|eexists; reflexivity].
    match goal with |- context [DELETE ?req e s] =>
      destruct (DELETE req e s) as [[r|err] s1] end;
      [|eexists; reflexivity].
    destruct (response_ok r); [|eexists; reflexivity].
    unfold as_array.
    destruct (TodoList.todos st); eexists; reflexivity.
  - unfold saveEdit.
    destruct (negb (truthy (VStr (trim (TodoList.editTitle st)))));
      [eexists; reflexivity|].
    unfold fetch, run, try_catch, bind, handle.
    destruct online; [|eexists; reflexivity].
    match goal with |- context [PATCH ?req e s] =>
      destruct (PATCH req e s) as [[r|err] s1] end;
      [|eexists; reflexivity].
    destruct (response_ok r); [|eexists; reflexivity].
    unfold response_todo. destruct (body r); try (eexists; reflexivity).
    unfold as_array.
    destruct (TodoList.todos st); eexists; reflexivity.
Qed.

Lemma request_of_event_no_blank (ev : event) (st : TodoList.state)
    (c : call) :
  request_of_event ev st = Some c -> sends_no_blank_title c.
Proof.
  destruct ev; cbn [request_of_event]; try discriminate.
  - intros [= <-]. exact I.
  - destruct (negb _); intros [= <-]. exact I.
  - intros [= <-]. intros b x [= <-] Hx. vm_compute in Hx. discriminate.
  - destruct (negb _); intros [= <-]. exact I.
  - destruct (truthy (VStr (trim (TodoList.editTitle st)))) eqn:Ht;
      simpl negb; intros [= <-].
    intros b x [= <-] Hx.
    change (VStr (TodoList.editTitle st) = VStr x) in Hx.
    injection Hx as <-.
    apply trim_not_nil_iff. apply truthy_VStr. exact Ht.
Qed.

(** X8.  Whatever the user does with the component, the store goes
    where a sequence of requests takes it, at most one request for each
    event, and none of them an update that sends a blank title: the
    component never stores a blank title. *)
Theorem component_stores_no_blank_title (evs : list (event * bool * env))
    (st : TodoList.state) (s : store) :
  Forall (fun x => plain_event (fst (fst x))) evs ->
  exists cs,
    snd (after_events evs st s) = store_after cs s /\
    (List.length cs <= List.length evs)%nat /\
    Forall (fun ce => sends_no_blank_title (fst ce)) cs /\
    (titles_not_blank s -> titles_not_blank (snd (after_events evs st s))).
Proof.
  intros _.
  assert (exists cs,
             snd (after_events evs st s) = store_after cs s /\
             (List.length cs <= List.length evs)%nat /\
             Forall (fun ce => sends_no_blank_title (fst ce)) cs) as H.
  { revert st s. induction evs as [|[[ev online] e] evs IH]; intros st s.
    - exists []. simpl. auto.
    - simpl after_events.
      destruct (on_event_run online ev st e s) as [st' ->].
      pose proof (request_of_event_no_blank ev st) as Hc.
      destruct (request_of_event ev st) as [c|];
        [destruct online|].
      + destruct (IH st' (snd (run (handle c) e s)))
          as (cs & -> & Hlen & Hcs).
        exists ((c, e) :: cs). simpl.
        split; [reflexivity|]. split; [lia|].
        constructor; [apply Hc; reflexivity | exact Hcs].
      + destruct (IH st' s) as (cs & -> & Hlen & Hcs).
        exists cs. simpl. auto with arith.
      + destruct (IH st' s) as (cs & -> & Hlen & Hcs).
        exists cs. simpl. auto with arith. }
  destruct H as (cs & Heq & Hlen & Hcs).
  exists cs. split; [exact Heq|]. split; [exact Hlen|].
  split; [exact Hcs|].
  intros Hs. rewrite Heq. apply titles_not_blank_preserved; assumption.
Qed.

Lemma component_stores_no_blank_title_witness :
  let t := mkTodo (lit "c0") (lit "milk") None false 10 10 in
  let s := {| rows := [t]; next_seq := 1 |} in
  let e := {| clock := 20; db_up := true |} in
  let evs := [(EditClicked t, true, e);
              (EditTitleChanged (lit "   "), true, e);
              (SaveClicked (lit "c0"), true, e);
              (CompleteToggled (lit "c0") false, true, e);
              (DeleteClicked (lit "c1") true, true, e)] in
  exists cs,
    snd (after_events evs initial_state s) = store_after cs s /\
    (List.length cs <= 5)%nat /\
    Forall (fun ce => sends_no_blank_title (fst ce)) cs /\
    (titles_not_blank s ->
     titles_not_blank (snd (after_events evs initial_state s))).
Proof.
  intros t s e evs.
  apply (component_stores_no_blank_title evs initial_state s).
  repeat constructor.
Defined.

(** ** The component: the list on screen *)

Lemma DELETE_spec (req : request) (e : env) (s : store) (i : jsstring) :
  searchParams_get (lit "id") (searchParams req) = Some i ->
  run (DELETE req) e s =
    (Return {| status := 200;
               body := MessageBody "Todo deleted successfully" |},
     {| rows := delete_rows i (rows s); next_seq := next_seq s |})
  \/
  exists r,
    run (DELETE req) e s = (Return r, s) /\
    (status r = 400 \/ status r = 500).
Proof.
  intros Hid.
  cut (wp (DELETE req)
         (fun o s1 =>
            (o = Return {| status := 200;
                           body := MessageBody "Todo deleted successfully" |}
             /\ s1 = {| rows := delete_rows i (rows s);
                        next_seq := next_seq s |})
            \/
            exists r, o = Return r /\ s1 = s /\
                      (status r = 400 \/ status r = 500)) e s).
  { unfold wp. destruct (run (DELETE req) e s) as [o s1]. simpl.
    intros [[-> ->] | (r & -> & -> & Hr)]; [left; reflexivity|].
    right. exists r. auto. }
  unfold DELETE. rewrite Hid. simpl nullable.
  repeat wp_step;
    try (left; split; reflexivity);
    right; eexists; (split; [reflexivity|]); split; auto.
Qed.

Lemma order_update_rows (i : jsstring) (p : patch) (now : Z) (s : store)
    (t : Todo) :
  ids_unique s ->
  find_by_id i (rows s) = Some t ->
  order_by_createdAt_desc (update_rows i p now (rows s)) =
  replace_todo i (apply_patch p now t) (order_by_createdAt_desc (rows s)).
Proof.
  intros Huniq Hfind. unfold update_rows, replace_todo.
  rewrite order_by_createdAt_desc_map
    by (intros u; destruct (str_eqb _ _); reflexivity).
  apply map_ext_in. intros u Hu.
  destruct (str_eqb (id u) i) eqn:Hui; [|reflexivity].
  apply str_eqb_eq in Hui.
  assert (u = t) as ->; [|reflexivity].
  apply (Permutation_in _ (order_by_createdAt_desc_perm (rows s))) in Hu.
  apply (ids_unique_find (rows s) i); assumption.
Qed.

Lemma not_ok_400_500 (r : response) :
  status r = 400 \/ status r = 500 -> response_ok r = false.
Proof. unfold response_ok. intros [-> | ->]; reflexivity. Qed.

Lemma patch_event_in_sync (st : TodoList.state) (req : request)
    (b : value) (i : jsstring) (e : env) (s : store)
    (k : Todo -> list Todo -> TodoList.state) :
  in_sync st s -> ids_unique s ->
  json_body req = Some b -> prop b (lit "id") = VStr i ->
  (forall t l, TodoList.todos (k t l) = Todos (replace_todo i t l)) ->
  exists st' s',
    run (try
           (response <- handle (CallPATCH req) ;;
            if response_ok response then
              (updatedTodo <- response_todo response ;;
               todos <- as_array (TodoList.todos st) ;;
               ret (k updatedTodo todos))
            else ret st)
         catch ret st) e s = (Return st', s') /\
    in_sync st' s'.
Proof.
  intros Hsync Huniq Hb Hi Hk.
  unfold run, try_catch, bind, handle.
  destruct (PATCH_spec req e s b Hb)
    as [(_ & j & p & t & Hj & _ & Hfind & Hr)
       | (_ & r & Hr & Hst)]; unfold run in Hr; rewrite Hr.
  - assert (j = i) by congruence. subst j.
    simpl. rewrite Hsync. simpl.
    eexists. eexists. split; [reflexivity|].
    unfold in_sync. rewrite Hk. simpl rows.
    rewrite (order_update_rows i p (clock e) s t) by assumption.
    reflexivity.
  - rewrite not_ok_400_500 by (destruct Hst as [-> | ->]; auto).
    eexists. eexists. split; [reflexivity | exact Hsync].
Qed.

(** X9.  Each event keeps the list on screen equal to the list the
    server would send: the record that a create returns goes on top (it
    is the newest when the clock has moved on since the last create),
    the record that an update returns goes in the place of the one it
    replaces, and a deleted record goes away.  A request that fails, or
    that does not leave at all, changes neither side.  (The first fetch
    is the exception when the store cannot be reached: see below.) *)
Theorem event_keeps_list_in_sync (online : bool) (ev : event)
    (st : TodoList.state) (e : env) (s : store) :
  in_sync st s ->
  ids_unique s ->
  plain_event ev ->
  (ev = Mounted -> online = true -> db_up e = true) ->
  (ev = Submitted -> Forall (fun t => createdAt t < clock e) (rows s)) ->
  exists st' s',
    run (on_event online ev st) e s = (Return st', s') /\ in_sync st' s'.
Proof.
  intros Hsync Huniq Hplain Hget Hnew.
  destruct ev; cbn [on_event];
    try (eexists; eexists; split; [reflexivity | exact Hsync]).
  - (* fetchTodos *)
    unfold fetchTodos, fetch. destruct online.
    + unfold run, try_catch, bind, handle.
      pose proof (GET_run e s (Hget eq_refl eq_refl)) as Hr.
      unfold run in Hr. rewrite Hr. simpl.
      eexists. eexists. split; reflexivity.
    + eexists. eexists. split; [reflexivity | exact Hsync].
  - (* handleSubmit *)
    unfold handleSubmit.
    destruct (negb (truthy (VStr (trim (TodoList.title st)))));
      [eexists; eexists; split; [reflexivity | exact Hsync]|].
    cbv zeta. unfold fetch.
    destruct online;
      [|eexists; eexists; split; [reflexivity | exact Hsync]].
    unfold run, try_catch, bind, handle.
    cbn [TodoList.title TodoList.description TodoList.todos setLoading].
    match goal with |- context [POST ?req e s] =>
      destruct (POST_spec req e s _ eq_refl)
        as [(_ & r & Hcr & Hr) | (_ & r & Hr & Hst)];
        unfold run in Hr; rewrite Hr
    end.
    + simpl. rewrite Hsync. simpl.
      eexists. eexists. split; [reflexivity|].
      unfold in_sync. simpl.
      rewrite order_by_createdAt_desc_newest; [reflexivity|].
      destruct Hcr as (_ & _ & _ & _ & -> & _). apply Hnew. reflexivity.
    + rewrite not_ok_400_500 by (destruct Hst as [-> | ->]; auto).
      eexists. eexists. split; [reflexivity | exact Hsync].
  - (* toggleComplete *)
    unfold toggleComplete, fetch. destruct online;
      [|eexists; eexists; split; [reflexivity | exact Hsync]].
    eapply (patch_event_in_sync st _ _ id0 e s
              (fun t l => setTodos (Todos (replace_todo id0 t l)) st));
      try eassumption; reflexivity.
  - (* deleteTodo *)
    unfold deleteTodo.
    destruct (negb confirmed);
      [eexists; eexists; split; [reflexivity | exact Hsync]|].
    unfold fetch. destruct online;
      [|eexists; eexists; split; [reflexivity | exact Hsync]].
    unfold run, try_catch, bind, handle.
    destruct (DELETE_spec (DELETE_request id0) e s id0 eq_refl)
      as [Hr | (r & Hr & Hst)]; unfold run in Hr; rewrite Hr.
    + simpl. rewrite Hsync. simpl.
      eexists. eexists. split; [reflexivity|].
      unfold in_sync, remove_todo, delete_rows. simpl.
      rewrite order_by_createdAt_desc_filter. reflexivity.
    + rewrite not_ok_400_500 by exact Hst.
      eexists. eexists. split; [reflexivity | exact Hsync].
  - (* saveEdit *)
    unfold saveEdit.
    destruct (negb (truthy (VStr (trim (TodoList.editTitle st)))));
      [eexists; eexists; split; [reflexivity | exact Hsync]|].
    unfold fetch. destruct online;
      [|eexists; eexists; split; [reflexivity | exact Hsync]].
    eapply (patch_event_in_sync st _ _ id0 e s
              (fun t l => cancelEditing
                            (setTodos (Todos (replace_todo id0 t l)) st)));
      try eassumption; reflexivity.
Qed.

Lemma event_keeps_list_in_sync_witness :
  let a := mkTodo (lit "c0") (lit "milk") None false 10 10 in
  let s := {| rows := [a]; next_seq := 1 |} in
  let st := setTitle (lit "tea") (setTodos (Todos [a]) initial_state) in
  exists st' s',
    run (on_event true Submitted st) {| clock := 20; db_up := true |} s =
      (Return st', s') /\
    in_sync st' s'.
Proof.
  intros a s st.
  apply (event_keeps_list_in_sync true Submitted st
           {| clock := 20; db_up := true |} s).
  - reflexivity.
  - unfold ids_unique. simpl. constructor; [intros [] | constructor].
  - exact I.
  - discriminate.
  - intros _. constructor; [simpl; lia | constructor].
Defined.

(** X10.  The first fetch does not look at the status of the answer.
    When the store cannot be reached, what it puts in [todos] is the
    error body of the 500, which is not an array, and the count of
    completed tasks that the next render computes throws. *)
Theorem failed_fetch_breaks_render (st : TodoList.state) (e : env)
    (s : store) :
  db_up e = false ->
  run (fetchTodos true st) e s =
    (Return (setTodos (ErrorBody "Failed to fetch todos") st), s) /\
  completedCount (setTodos (ErrorBody "Failed to fetch todos") st) =
    Throw TypeError.
Proof.
  intros Hdown. split; [|reflexivity].
  unfold fetchTodos, fetch, run, try_catch, bind, handle.
  pose proof (GET_down e s Hdown) as Hr. unfold run in Hr. rewrite Hr.
  reflexivity.
Qed.

Lemma failed_fetch_breaks_render_witness :
  let e := {| clock := 5; db_up := false |} in
  let s := {| rows := []; next_seq := 0 |} in
  run (fetchTodos true initial_state) e s =
    (Return (setTodos (ErrorBody "Failed to fetch todos") initial_state), s)
  /\
  completedCount (setTodos (ErrorBody "Failed to fetch todos") initial_state)
    = Throw TypeError.
Proof.
  intros e s. apply (failed_fetch_breaks_render initial_state e s).
  reflexivity.
Defined.

(** ** The component: editing and creating *)

Lemma find_by_id_update_rows_other (i j : jsstring) (p : patch) (now : Z)
    (l : list Todo) :
  j <> i -> find_by_id j (update_rows i p now l) = find_by_id j l.
Proof.
  intros Hne. rewrite find_by_id_update_rows.
  destruct (find_by_id j l) as [u|] eqn:Hu; [|reflexivity].
  destruct (find_by_id_Some _ _ _ Hu) as [_ Hid].
  destruct (str_eqb (id u) i) eqn:Hui; [|reflexivity].
  apply str_eqb_eq in Hui. congruence.
Qed.

(** X11.  Opening a task for editing and saving it as it is changes
    nothing of the stored record but [updatedAt], when the record is
    normalized as stored records are: the title goes back as it was, a
    description goes back as it was, and the empty string that stands
    for no description is stored as no description.  If the request
    fails or does not leave, the store is as it was. *)
Theorem edit_without_change (online : bool) (t : Todo)
    (st : TodoList.state) (e : env) (s : store) :
  normalized t ->
  find_by_id (id t) (rows s) = Some t ->
  exists st' s',
    run (saveEdit online (id t) (startEditing t st)) e s = (Return st', s') /\
    (find_by_id (id t) (rows s') = Some t \/
     find_by_id (id t) (rows s') = Some (touched (clock e) t)) /\
    (forall j, j <> id t -> find_by_id j (rows s') = find_by_id j (rows s)).
Proof.
  intros [Htitle Hdesc] Hfind.
  destruct (on_event_run online (SaveClicked (id t)) (startEditing t st) e s)
    as [st' Hrun].
  cbn [on_event] in Hrun. rewrite Hrun. eexists. eexists.
  split; [reflexivity|].
  cbn [request_of_event TodoList.editTitle TodoList.editDescription
       startEditing setEditDescription setEditTitle setEditingId].
  destruct (negb _); [auto|]. destruct online; [|auto].
  match goal with |- context [CallPATCH ?req] =>
    destruct (PATCH_spec req e s _ eq_refl)
      as [(_ & i & p & t0 & Hi & Hsent & Hfind0 & Hr)
         | (_ & r & Hr & _)]
  end; cbn [handle]; rewrite Hr; [|auto].
  injection Hi as <-.
  assert (find_by_id (id t) (rows s) = Some t0) as Hfind1 by exact Hfind0.
  assert (t0 = t) by congruence. subst t0.
  assert (p = {| p_completed := None;
                 p_title := Some (title t);
                 p_description := Some (description t) |}) as ->.
  { apply (sent_patch_fun _ _ _ Hsent).
    split; [reflexivity|]. split.
    - exists (title t). split; [reflexivity | symmetry; exact Htitle].
    - simpl p_description. unfold sent_description.
      destruct (description t) as [d|] eqn:Hd.
      + exists d. destruct Hdesc as [Hd1 Hd2].
        split; [reflexivity|]. split; [symmetry; exact Hd1 | exact Hd2].
      + right. exists []. split; reflexivity. }
  simpl rows. split.
  - right. rewrite find_by_id_update_rows, Hfind, str_eqb_refl.
    reflexivity.
  - intros j Hj. apply find_by_id_update_rows_other. exact Hj.
Qed.

Lemma edit_without_change_witness :
  let t := mkTodo (lit "c0") (lit "milk") None false 10 10 in
  let s := {| rows := [t]; next_seq := 1 |} in
  let e := {| clock := 20; db_up := true |} in
  exists st' s',
    run (saveEdit true (id t) (startEditing t initial_state)) e s =
      (Return st', s') /\
    (find_by_id (id t) (rows s') = Some t \/
     find_by_id (id t) (rows s') = Some (touched (clock e) t)) /\
    (forall j, j <> id t -> find_by_id j (rows s') = find_by_id j (rows s)).
Proof.
  intros t s e.
  apply (edit_without_change true t initial_state e s).
  - split; [reflexivity | exact I].
  - reflexivity.
Defined.

(** X12.  What a submit does, with a list on screen.  When the network
    is there, the title typed is not blank and the store can be reached,
    the task is created with the trimmed title, it goes on top of the
    list and the form is cleared.  In every other case nothing is
    created, the list is as it was, and the form keeps what was typed. *)
Theorem handleSubmit_outcome (online : bool) (st : TodoList.state)
    (e : env) (s : store) (l : list Todo) :
  TodoList.todos st = Todos l ->
  exists st' s',
    run (handleSubmit online st) e s = (Return st', s') /\
    ((online = true /\ trim (TodoList.title st) <> [] /\ db_up e = true /\
      exists r,
        s' = {| rows := rows s ++ [r]; next_seq := N.succ (next_seq s) |} /\
        title r = trim (TodoList.title st) /\
        TodoList.todos st' = Todos (r :: l) /\
        TodoList.title st' = [] /\
        TodoList.description st' = [] /\
        TodoList.loading st' = false)
     \/
     ((online = false \/ trim (TodoList.title st) = [] \/ db_up e = false) /\
      s' = s /\
      TodoList.todos st' = TodoList.todos st /\
      TodoList.title st' = TodoList.title st /\
      TodoList.description st' = TodoList.description st)).
Proof.
  intros Hl. unfold handleSubmit.
  destruct (truthy (VStr (trim (TodoList.title st)))) eqn:Ht; simpl negb.
  - apply truthy_VStr in Ht.
    cbv zeta. unfold fetch. destruct online.
    + unfold run, try_catch, bind, handle.
      cbn [TodoList.title TodoList.description TodoList.todos setLoading].
      match goal with |- context [POST ?req e s] =>
        destruct (POST_spec req e s _ eq_refl)
          as [((_ & _ & Hup) & r & Hcr & Hr) | (Hnc & r & Hr & Hst)];
          unfold run in Hr; rewrite Hr
      end.
      * simpl. rewrite Hl. simpl.
        eexists. eexists. split; [reflexivity|]. left.
        split; [reflexivity|]. split; [exact Ht|]. split; [exact Hup|].
        exists r. split; [reflexivity|].
        destruct Hcr as (_ & (x & Hx & Htr) & _).
        injection Hx as <-. auto.
      * rewrite not_ok_400_500 by (destruct Hst as [-> | ->]; auto).
        eexists. eexists. split; [reflexivity|]. right.
        split; [|auto].
        right. right. destruct (db_up e) eqn:Hup; [|reflexivity].
        exfalso. apply Hnc. split; [|split; [|exact Hup]].
        -- exists (TodoList.title st). split; [reflexivity | exact Ht].
        -- right. right. eexists. reflexivity.
    + eexists. eexists. split; [reflexivity|]. right. auto.
  - eexists. eexists. split; [reflexivity|]. right.
    split; [|auto]. right. left.
    destruct (trim (TodoList.title st)); [reflexivity | discriminate].
Qed.

Lemma handleSubmit_outcome_witness :
  let a := mkTodo (lit "c0") (lit "milk") None false 10 10 in
  let s := {| rows := [a]; next_seq := 1 |} in
  let e := {| clock := 20; db_up := false |} in
  let st := setTitle (lit " tea ") (setTodos (Todos [a]) initial_state) in
  exists st' s',
    run (handleSubmit true st) e s = (Return st', s') /\
    ((true = true /\ trim (TodoList.title st) <> [] /\ db_up e = true /\
      exists r,
        s' = {| rows := rows s ++ [r]; next_seq := N.succ (next_seq s) |} /\
        title r = trim (TodoList.title st) /\
        TodoList.todos st' = Todos [r; a] /\
        TodoList.title st' = [] /\
        TodoList.description st' = [] /\
        TodoList.loading st' = false)
     \/
     ((true = false \/ trim (TodoList.title st) = [] \/ db_up e = false) /\
      s' = s /\
      TodoList.todos st' = TodoList.todos st /\
      TodoList.title st' = TodoList.title st /\
      TodoList.description st' = TodoList.description st)).
Proof.
  intros a s e st.
  apply (handleSubmit_outcome true st e s [a]). reflexivity.
Defined.
